(** * panorama: the map-block codec and the block neighborhood

    A shallow embedding of the two Go translation units of the repository:
    the block codec ([DecodeMapBlock], [MapBlock.ResolveName],
    [MapBlock.GetNode], [World.GetBlock]) and the renderer's
    [BlockNeighborhood] ([FetchBlock], [SetBlock], [getBlockByNodePos],
    [GetNode], [GetParam1]).

    Conventions.
    - Go's [int] is the 64-bit two's complement integer: a [Z] together
      with [wrap_int] applied after every addition and multiplication.
      [/] and [%] on [int] truncate toward zero: [Z.quot] and [Z.rem].
    - [uint8] is [Byte.byte]; [uint16] is a [Z] reduced by [wrap_u16].
    - A Go [(value, error)] pair is a [res error value]; a run-time panic
      (index out of range) is a [res panic value].
    - [map[uint16]string] is a [gmap Z string]; a missing key reads as the
      zero value, the empty string.
    - [*MapBlock] is an [option MapBlock], [nil] being [None]. *)

From Stdlib Require Import ZArith List Lia.
From Stdlib.Strings Require Import Byte String.
From stdpp Require Import base option list gmap.
From stdpp Require Import strings.

Local Open Scope Z_scope.

(** ** Results *)

Inductive res (E A : Type) : Type :=
| Ok (a : A)
| Err (e : E).
Arguments Ok {E A} a.
Arguments Err {E A} e.

(** The error monad of a Go function that returns early on [err != nil],
    with stdpp's [x ← c; k] notation. *)
#[global] Instance res_bind {E} : MBind (res E) := fun A B k c =>
  match c with
  | Ok a => k a
  | Err e => Err e
  end.
#[global] Instance res_ret {E} : MRet (res E) := fun A a => Ok a.

(** ** Machine integers *)

Module GoInt.

Definition wrap_int (v : Z) : Z := (v + 2 ^ 63) mod 2 ^ 64 - 2 ^ 63.
Definition in_int (v : Z) : Prop := - 2 ^ 63 <= v < 2 ^ 63.

Definition add (a b : Z) : Z := wrap_int (a + b).
Definition mul (a b : Z) : Z := wrap_int (a * b).
(** Go's [/] and [%] truncate toward zero; the divisors used by the
    program are the positive constant [BlockSize], so neither the
    division by zero nor the overflow of [minInt / -1] arises. *)
Definition div (a b : Z) : Z := wrap_int (Z.quot a b).
Definition rem (a b : Z) : Z := Z.rem a b.

Definition wrap_u16 (v : Z) : Z := v mod 2 ^ 16.
Definition u8 (b : byte) : Z := Z.of_N (Byte.to_N b).

End GoInt.

(** Run-time panics of the Go runtime. *)
Inductive panic : Type :=
| IndexOutOfRange (index : Z) (len : nat).

(** [a[i]] on a slice or an array: panics unless [0 <= i < len a]. *)
Definition index_at {A} (l : list A) (i : Z) : res panic A :=
  if i <? 0 then Err (IndexOutOfRange i (length l))
  else match l !! Z.to_nat i with
       | Some a => Ok a
       | None => Err (IndexOutOfRange i (length l))
       end.

(** [a[i] = v]: panics unless [0 <= i < len a]. *)
Definition store_at {A} (l : list A) (i : Z) (v : A) : res panic (list A) :=
  if (0 <=? i) && (i <? Z.of_nat (length l))
  then Ok (<[Z.to_nat i := v]> l)
  else Err (IndexOutOfRange i (length l)).

(** ** Library primitives of the codec *)

(** Errors a decode can return. *)
Inductive error : Type :=
| EOF
| ErrUnexpectedEOF
| ErrNegativePosition
| ErrUnsupportedVersion (version : byte)
| ErrZstd (code : N)
| ErrBackend (code : N).

(** The zstd stream decoder ([zstd.NewReader] followed by [io.ReadAll]) is
    a library primitive: the decompressed payload of the bytes that follow
    the version byte, or an error. *)
Class ZstdDecoder := zstd_read_all : list byte -> res error (list byte).

Module Bytes.

(** [bytes.Reader]: the slice and the read position. *)
Record Reader : Type := mkReader { s : list byte; i : Z }.

Definition NewReader (data : list byte) : Reader := mkReader data 0.

Definition remaining (r : Reader) : list byte := drop (Z.to_nat (i r)) (s r).

(** [io.ReadFull(r, buf)] with [len(buf) = n]: no read at all for an empty
    buffer; [EOF] when nothing is left; [ErrUnexpectedEOF] on a short
    read; otherwise the [n] bytes, and the position advanced by [n]. *)
Definition ReadFull (r : Reader) (n : nat) : res error (list byte * Reader) :=
  match n with
  | O => Ok ([], r)
  | S _ =>
      let rest := remaining r in
      match rest with
      | [] => Err EOF
      | _ :: _ =>
          if (length rest <? n)%nat then Err ErrUnexpectedEOF
          else Ok (take n rest, mkReader (s r) (i r + Z.of_nat n))
      end
  end.

(** [r.Seek(offset, io.SeekCurrent)]: only a negative target fails; a
    target past the end is accepted, later reads return [EOF]. *)
Definition Seek (r : Reader) (offset : Z) : res error Reader :=
  let abs := i r + offset in
  if abs <? 0 then Err ErrNegativePosition
  else Ok (mkReader (s r) abs).

End Bytes.

(** ** The block codec (package [main]: [DecodeMapBlock] and its queries) *)

Module World.
Import GoInt.

Definition MapBlockSize : Z := 16.
Definition MapBlockVolume : Z := MapBlockSize * MapBlockSize * MapBlockSize.
Definition NodeSizeInBytes : Z := 4.

Record Node : Type := mkNode { ID : Z; Param1 : byte; Param2 : byte }.

(** [binary.BigEndian.Uint16]. *)
Definition be_u16 (hi lo : byte) : Z :=
  Z.lor (u8 lo) (wrap_u16 (Z.shiftl (u8 hi) 8)).

Definition readU8 (r : Bytes.Reader) : res error (byte * Bytes.Reader) :=
  '(bs, r') ← Bytes.ReadFull r 1;
  Ok (nth 0 bs x00, r').

Definition readU16 (r : Bytes.Reader) : res error (Z * Bytes.Reader) :=
  '(bs, r') ← Bytes.ReadFull r 2;
  Ok (be_u16 (nth 0 bs x00) (nth 1 bs x00), r').

Definition readString (r : Bytes.Reader) : res error (string * Bytes.Reader) :=
  '(length, r1) ← readU16 r;
  '(buf, r2) ← Bytes.ReadFull r1 (Z.to_nat length);
  Ok (string_of_list_byte buf, r2).

Record MapBlock : Type := mkMapBlock {
  mappings : gmap Z string;
  nodeData : list byte
}.

(** The loop [for i := 0; i < int(mappingCount); i++], [count] iterations
    left: each reads an id and a name and assigns [mappings[id] = name]. *)
Fixpoint readMappings (count : nat) (r : Bytes.Reader) (m : gmap Z string)
  : res error (gmap Z string * Bytes.Reader) :=
  match count with
  | O => Ok (m, r)
  | S count' =>
      '(id, r1) ← readU16 r;
      '(name, r2) ← readString r1;
      readMappings count' r2 (<[id := name]> m)
  end.

Section Decode.
Context `{ZstdDecoder}.

Definition DecodeMapBlock (data : list byte) : res error MapBlock :=
  let reader := Bytes.NewReader data in
  '(version, reader) ← readU8 reader;
  if negb (u8 version =? 29) then Err (ErrUnsupportedVersion version)
  else
    data ← zstd_read_all (Bytes.remaining reader);
    let reader := Bytes.NewReader data in
    (* flags, lighting_complete, timestamp, mapping version *)
    reader ← Bytes.Seek reader (1 + 2 + 4 + 1);
    '(mappingCount, reader) ← readU16 reader;
    '(mappings, reader) ← readMappings (Z.to_nat mappingCount) reader ∅;
    (* contentWidth, paramsWidth *)
    reader ← Bytes.Seek reader (1 + 1);
    '(nodeData, _) ←
      Bytes.ReadFull reader (Z.to_nat (MapBlockVolume * NodeSizeInBytes));
    Ok (mkMapBlock mappings nodeData).

End Decode.

(** A map read of a missing key gives the zero value of [string]. *)
Definition ResolveName (b : MapBlock) (id : Z) : string :=
  default EmptyString (mappings b !! id).

Definition node_index (x y z : Z) : Z :=
  add (add (mul (mul z MapBlockSize) MapBlockSize) (mul y MapBlockSize)) x.

Definition GetNode (b : MapBlock) (x y z : Z) : res panic Node :=
  let index := node_index x y z in
  idHi ← index_at (nodeData b) (mul 2 index);
  idLo ← index_at (nodeData b) (add (mul 2 index) 1);
  param1 ← index_at (nodeData b) (add (2 * MapBlockVolume) index);
  param2 ← index_at (nodeData b) (add (3 * MapBlockVolume) index);
  Ok (mkNode (Z.lor (wrap_u16 (Z.shiftl (u8 idHi) 8)) (u8 idLo)) param1 param2).

(** [Backend.GetBlockData]: the persistence backend, as the function from
    block coordinates to raw bytes that it is during one render. *)
Record World : Type := NewWorldWithBackend {
  backend : Z -> Z -> Z -> res error (list byte)
}.

Section GetBlock.
Context `{ZstdDecoder}.

Definition GetBlock (w : World) (x y z : Z) : res error MapBlock :=
  data ← backend w x y z;
  block ← DecodeMapBlock data;
  Ok block.

End GetBlock.

End World.

(** ** Coordinates (package [spatial]) *)

Module Spatial.

(** Modelled from the spec: [spatial.BlockSize], the block edge length,
    "fixed at 16"; the package is imported by the renderer and its file
    is not among the sources. *)
Definition BlockSize : Z := 16.

(** Modelled from the spec: [spatial.BlockPos], an integer coordinate in
    block units whose arithmetic is component-wise addition. *)
Module BlockPos.
Record t : Type := mk { X : Z; Y : Z; Z : Z }.
Definition Add (a b : t) : t :=
  mk (GoInt.add (X a) (X b)) (GoInt.add (Y a) (Y b)) (GoInt.add (Z a) (Z b)).
End BlockPos.

(** Modelled from the spec: [spatial.NodePos], an integer coordinate in
    voxel units. *)
Module NodePos.
Record t : Type := mk { X : Z; Y : Z; Z : Z }.
End NodePos.

End Spatial.

(** ** The block neighborhood (package [render]) *)

Module Render.
Import GoInt Spatial.

(** [blocks [27]*world.MapBlock]: the 27 cells, [None] for [nil]. *)
Record BlockNeighborhood : Type := mkBlockNeighborhood {
  blocks : list (option World.MapBlock)
}.

(** An array has its length by type. *)
Definition wf (b : BlockNeighborhood) : Prop := length (blocks b) = 27%nat.

(** The zero value [BlockNeighborhood{}]: every cell [nil]. *)
Definition zero : BlockNeighborhood := mkBlockNeighborhood (replicate 27 None).

Definition neighborhoodCenter : BlockPos.t := BlockPos.mk 1 1 1.

(** Modelled from the spec: the renderer calls [block.GetNode] with a
    [spatial.NodePos]; the sources hold the method on three [int]s, and
    the position is the local voxel coordinate [(x, y, z)]. *)
Definition MapBlock_GetNode (block : World.MapBlock) (pos : NodePos.t)
  : res panic World.Node :=
  World.GetNode block (NodePos.X pos) (NodePos.Y pos) (NodePos.Z pos).

Definition SetBlock (b : BlockNeighborhood) (pos : BlockPos.t)
    (block : option World.MapBlock) : res panic BlockNeighborhood :=
  cells ← store_at (blocks b)
    (add (add (mul (BlockPos.X pos) 9) (mul (BlockPos.Y pos) 3)) (BlockPos.Z pos))
    block;
  Ok (mkBlockNeighborhood cells).

Section Fetch.
Context `{ZstdDecoder}.

(** Modelled from the spec: the renderer calls [w.GetBlock] with a
    [spatial.BlockPos]; the sources hold the method on three [int]s. *)
Definition World_GetBlock (w : World.World) (pos : BlockPos.t)
  : res error World.MapBlock :=
  World.GetBlock w (BlockPos.X pos) (BlockPos.Y pos) (BlockPos.Z pos).

Definition FetchBlock (b : BlockNeighborhood) (w : World.World)
    (posOffset worldPos : BlockPos.t) : res panic BlockNeighborhood :=
  match World_GetBlock w (BlockPos.Add worldPos posOffset) with
  | Err _ => Ok b
  | Ok block =>
      SetBlock b (BlockPos.Add neighborhoodCenter posOffset) (Some block)
  end.

End Fetch.

(** The index [bz*9+by*3+bx] of [getBlockByNodePos]. *)
Definition cell_of_node (pos : NodePos.t) : Z :=
  let bx := add (div (NodePos.X pos) BlockSize) (BlockPos.X neighborhoodCenter) in
  let by_ := add (div (NodePos.Y pos) BlockSize) (BlockPos.Y neighborhoodCenter) in
  let bz := add (div (NodePos.Z pos) BlockSize) (BlockPos.Z neighborhoodCenter) in
  add (add (mul bz 9) (mul by_ 3)) bx.

Definition getBlockByNodePos (b : BlockNeighborhood) (pos : NodePos.t)
  : res panic (option World.MapBlock) :=
  index_at (blocks b) (cell_of_node pos).

(** The position handed to the block: [pos % BlockSize] on each axis. *)
Definition local_pos (pos : NodePos.t) : NodePos.t :=
  NodePos.mk (rem (NodePos.X pos) BlockSize)
             (rem (NodePos.Y pos) BlockSize)
             (rem (NodePos.Z pos) BlockSize).

Definition GetNode (b : BlockNeighborhood) (pos : NodePos.t)
  : res panic (string * byte * byte) :=
  block ← getBlockByNodePos b pos;
  match block with
  | None => Ok ("air"%string, x00, x00)
  | Some block =>
      node ← MapBlock_GetNode block (local_pos pos);
      let name := World.ResolveName block (World.ID node) in
      Ok (name, World.Param1 node, World.Param2 node)
  end.

Definition GetParam1 (b : BlockNeighborhood) (pos : NodePos.t) : res panic byte :=
  block ← getBlockByNodePos b pos;
  match block with
  | None => Ok x00
  | Some block =>
      node ← MapBlock_GetNode block (local_pos pos);
      Ok (World.Param1 node)
  end.

End Render.

(** ** Vocabulary of the statements *)

(** A local voxel coordinate, each component in [[0, BlockSize)]. *)
Definition in_block (x y z : Z) : Prop :=
  0 <= x < World.MapBlockSize /\ 0 <= y < World.MapBlockSize
  /\ 0 <= z < World.MapBlockSize.

(** The wire format of the decompressed payload, written the way
    [DecodeMapBlock] reads it back: big-endian 16-bit fields and
    length-prefixed names. *)
Module Encode.

Definition byte_of_Z (v : Z) : byte := default x00 (Byte.of_N (Z.to_N v)).

Definition u16 (v : Z) : list byte :=
  [byte_of_Z (v / 256); byte_of_Z (v mod 256)].

Definition str (name : string) : list byte :=
  u16 (Z.of_nat (length (list_byte_of_string name)))
  ++ list_byte_of_string name.

Definition entry (e : Z * string) : list byte := u16 (fst e) ++ str (snd e).

Definition payload (meta : list byte) (entries : list (Z * string))
    (widths nodes : list byte) : list byte :=
  meta ++ u16 (Z.of_nat (length entries))
       ++ flat_map entry entries ++ widths ++ nodes.

(** An entry whose fields fit their 16-bit prefixes. *)
Definition fits (e : Z * string) : Prop :=
  0 <= fst e < 65536
  /\ Z.of_nat (length (list_byte_of_string (snd e))) < 65536.

End Encode.

(** The assignments [mappings[id] = name] of a table, in reading order. *)
Definition assign_all (m : gmap Z string) (entries : list (Z * string))
  : gmap Z string :=
  fold_left (fun m e => <[fst e := snd e]> m) entries m.

(** What is left to read: the position is valid and [l] lies ahead. *)
Definition reads (r : Bytes.Reader) (l : list byte) : Prop :=
  0 <= Bytes.i r /\ Bytes.remaining r = l.

(** A decoder for stored (uncompressed) streams: the payload is the body.
    It instantiates the zstd primitive where a statement is run on a
    concrete input. *)
Definition stored_decoder : ZstdDecoder := fun body => Ok body.

(** A relative offset in [{-1,0,1}^3]. *)
Definition offset_in_range (o : Spatial.BlockPos.t) : Prop :=
  -1 <= Spatial.BlockPos.X o <= 1 /\ -1 <= Spatial.BlockPos.Y o <= 1
  /\ -1 <= Spatial.BlockPos.Z o <= 1.

(** The cell [SetBlock] writes for a relative offset, once the offset is
    shifted by the center index on each axis. *)
Definition stored_cell (o : Spatial.BlockPos.t) : nat :=
  Z.to_nat ((Spatial.BlockPos.X o + 1) * 9 + (Spatial.BlockPos.Y o + 1) * 3
            + (Spatial.BlockPos.Z o + 1)).

(** A backend holding one block, at the origin. *)
Definition single_block_world (data : list byte) : World.World :=
  World.NewWorldWithBackend (fun x y z =>
    if (x =? 0) && (y =? 0) && (z =? 0) then Ok data else Err (ErrBackend 0)).

(** A well-formed stream with one mapping, ID 5 for "default:stone", and
    every voxel of ID 5. *)
Definition stone_nodes : list byte :=
  flat_map (fun _ => [x00; x05]) (seq 0 (Z.to_nat 4096))
  ++ replicate (Z.to_nat 8192) x0f.

Definition stone_block : World.MapBlock :=
  World.mkMapBlock (<[5 := "default:stone"%string]> ∅) stone_nodes.

Definition stone_data : list byte :=
  x1d :: Encode.payload (replicate 8 x00) [(5, "default:stone"%string)]
           [x02; x02] stone_nodes.

(** A block whose every voxel has ID 7, "default:dirt". *)
Definition dirt_block : World.MapBlock :=
  World.mkMapBlock (<[7 := "default:dirt"%string]> ∅)
    (flat_map (fun _ => [x00; x07]) (seq 0 (Z.to_nat 4096))
     ++ replicate (Z.to_nat 8192) x03).

(** The stone block in the center, dirt blocks in the 26 other cells. *)
Definition stone_among_dirt : Render.BlockNeighborhood :=
  Render.mkBlockNeighborhood
    (replicate 13 (Some dirt_block) ++ [Some stone_block]
     ++ replicate 13 (Some dirt_block)).

(** The node array in the words of the format description: four planes,
    each of one byte per voxel, ID high bytes, ID low bytes, param1,
    param2. *)
Definition plane_layout (hiP loP p1P p2P : list byte) : list byte :=
  hiP ++ loP ++ p1P ++ p2P.

(** The voxel a reader of the four planes finds at a flat index. *)
Definition plane_read (hiP loP p1P p2P : list byte) (index : nat)
  : option World.Node :=
  hi ← hiP !! index;
  lo ← loP !! index;
  p1 ← p1P !! index;
  p2 ← p2P !! index;
  Some (World.mkNode (Z.lor (Z.shiftl (GoInt.u8 hi) 8) (GoInt.u8 lo)) p1 p2).

(** The two bytes of a 16-bit ID, high byte first. *)
Definition id_bytes (id : byte * byte) : list byte := [fst id; snd id].

(** The node array as [GetNode] indexes it: the IDs one after the other,
    followed by the plane of param1 and the plane of param2. *)
Definition interleaved_layout (ids : list (byte * byte)) (p1P p2P : list byte)
  : list byte :=
  flat_map id_bytes ids ++ p1P ++ p2P.

(** ** The media cache (package [main]: [MediaCache]) *)

Module Media.
Import GoInt.

(** [image.NRGBA]: the pixel buffer, four bytes per pixel, the stride in
    bytes between two rows, and the rectangle [[MinX, MaxX) x [MinY, MaxY)]. *)
Record NRGBA : Type := mkNRGBA {
  Pix : list byte;
  Stride : Z;
  MinX : Z; MinY : Z; MaxX : Z; MaxY : Z
}.

(** [color.NRGBA]. *)
Record Color : Type := mkColor { R : byte; G : byte; B : byte; A : byte }.

(** What stops the program or the walk. *)
Inductive stop : Type :=
| SliceOutOfRange (high : Z) (capacity : nat)
| NilDirEntry
| Failed (e : error).

(** [image.NewNRGBA(image.Rect(0, 0, 2, 2))]: sixteen zero bytes, eight
    bytes per row. *)
Definition blank_2x2 : NRGBA := mkNRGBA (replicate 16 x00) 8 0 0 2 2.

(** [NRGBA.SetNRGBA]: a point outside the rectangle is ignored; else the
    four bytes at [PixOffset(x, y)] are overwritten through the slice
    [Pix[i : i+4 : i+4]], which panics unless [0 <= i <= i+4 <= cap(Pix)];
    the buffer of an image made by [image.NewNRGBA] has no spare capacity. *)
Definition SetNRGBA (p : NRGBA) (x y : Z) (c : Color) : res stop NRGBA :=
  if negb ((MinX p <=? x) && (x <? MaxX p) && (MinY p <=? y) && (y <? MaxY p))
  then Ok p
  else
    let i := add (mul (wrap_int (y - MinY p)) (Stride p))
                 (mul (wrap_int (x - MinX p)) 4) in
    if (0 <=? i) && (i <=? add i 4) && (add i 4 <=? Z.of_nat (length (Pix p)))
    then
      let n := Z.to_nat i in
      Ok (mkNRGBA
            (<[(n + 3)%nat := A c]>
               (<[(n + 2)%nat := B c]> (<[(n + 1)%nat := G c]> (<[n := R c]> (Pix p)))))
            (Stride p) (MinX p) (MinY p) (MaxX p) (MaxY p))
    else Err (SliceOutOfRange (add i 4) (length (Pix p))).

(** [NRGBA.NRGBAAt]: the zero color outside the rectangle. *)
Definition NRGBAAt (p : NRGBA) (x y : Z) : res stop Color :=
  if negb ((MinX p <=? x) && (x <? MaxX p) && (MinY p <=? y) && (y <? MaxY p))
  then Ok (mkColor x00 x00 x00 x00)
  else
    let i := add (mul (wrap_int (y - MinY p)) (Stride p))
                 (mul (wrap_int (x - MinX p)) 4) in
    if (0 <=? i) && (i <=? add i 4) && (add i 4 <=? Z.of_nat (length (Pix p)))
    then
      let n := Z.to_nat i in
      Ok (mkColor (nth n (Pix p) x00) (nth (n + 1) (Pix p) x00)
                  (nth (n + 2) (Pix p) x00) (nth (n + 3) (Pix p) x00))
    else Err (SliceOutOfRange (add i 4) (length (Pix p))).

Section Cache.
(** The meshes, and the two loaders of the package that read a file: the
    image pointer [readPNG] returns ([None] for [nil]; its error is dropped
    by the caller) and the result of [loadOBJ]. *)
Context {Mesh : Type}.
Context (readPNG : string -> option NRGBA).
Context (loadOBJ : string -> res error Mesh).
(** [filepath.Base] and [filepath.Ext]. *)
Context (Base Ext : string -> string).

Record MediaCache : Type := mkMediaCache {
  images : gmap string (option NRGBA);
  meshes : gmap string Mesh;
  dummyImage : option NRGBA
}.

Definition NewMediaCache : res stop MediaCache :=
  dummyImage ← SetNRGBA blank_2x2 0 0 (mkColor xff x00 xff xff);
  dummyImage ← SetNRGBA dummyImage 0 1 (mkColor x00 x00 x00 xff);
  dummyImage ← SetNRGBA dummyImage 1 0 (mkColor x00 x00 x00 xff);
  dummyImage ← SetNRGBA dummyImage 1 1 (mkColor xff x00 xff xff);
  Ok (mkMediaCache ∅ ∅ (Some dummyImage)).

(** One call of [filepath.WalkDir] to the function it is given: the path
    and the directory entry, [None] for the [nil] entry of a root that
    cannot be read, else whether [d.Type().IsRegular()]. *)
Definition visit : Type := string * option bool.

(** [fetchMedia]: the walk over the calls [visits] that [filepath.WalkDir]
    makes, in its order, until the function returns an error.  The maps
    are updated in place, so the cache reached when the walk stops is
    returned beside the error. *)
Fixpoint fetchMedia (m : MediaCache) (visits : list visit)
  : MediaCache * option stop :=
  match visits with
  | [] => (m, None)
  | (path, d) :: rest =>
      match d with
      | None => (m, Some NilDirEntry)
      | Some regular =>
          if negb regular then fetchMedia m rest
          else
            let basePath := Base path in
            if String.eqb (Ext path) ".png" then
              let img := readPNG path in
              fetchMedia
                (mkMediaCache (<[basePath := img]> (images m)) (meshes m)
                   (dummyImage m)) rest
            else if String.eqb (Ext path) ".obj" then
              match loadOBJ path with
              | Err e => (m, Some (Failed e))
              | Ok mesh =>
                  fetchMedia
                    (mkMediaCache (images m) (<[basePath := mesh]> (meshes m))
                       (dummyImage m)) rest
              end
            else fetchMedia m rest
      end
  end.

Definition Image (m : MediaCache) (name : string) : option NRGBA :=
  match images m !! name with
  | Some img => img
  | None => dummyImage m
  end.

End Cache.

End Media.

(** ** Vocabulary of the further statements *)

(** A block with the whole node array, as [DecodeMapBlock] returns them. *)
Definition full_block (block : World.MapBlock) : Prop :=
  length (World.nodeData block)
  = Z.to_nat (World.MapBlockVolume * World.NodeSizeInBytes).

(** Every block present in the neighborhood has the whole node array. *)
Definition all_full (b : Render.BlockNeighborhood) : Prop :=
  forall (cell : nat) (block : World.MapBlock),
    Render.blocks b !! cell = Some (Some block) -> full_block block.

(** The answer of the neighborhood for a node of a block. *)
Definition node_answer (block : World.MapBlock) (node : World.Node)
  : string * byte * byte :=
  (World.ResolveName block (World.ID node), World.Param1 node, World.Param2 node).

Definition param1_of (answer : string * byte * byte) : byte := snd (fst answer).

Definition res_map {E A B} (f : A -> B) (c : res E A) : res E B :=
  match c with
  | Ok a => Ok (f a)
  | Err e => Err e
  end.

(** The error of a read that finds fewer bytes than it needs. *)
Definition short_read_error (rest : list byte) : error :=
  match rest with
  | [] => EOF
  | _ :: _ => ErrUnexpectedEOF
  end.

(** The node array of a block given by its 4096 node IDs and its two
    parameter planes: every ID as two big-endian bytes, then the planes. *)
Definition encode_nodes (ids : list Z) (p1P p2P : list byte) : list byte :=
  flat_map Encode.u16 ids ++ p1P ++ p2P.

(** A 16-bit value. *)
Definition is_u16 (v : Z) : Prop := 0 <= v < 65536.

(** A decoder that refuses every stream. *)
Definition refusing_decoder : ZstdDecoder := fun _ => Err (ErrZstd 1).

(** Coordinates far from the overflow of the index arithmetic. *)
Definition moderate (v : Z) : Prop := - 2 ^ 40 <= v <= 2 ^ 40.

(** The path of the last call of a walk that loads an image under [name]:
    a regular file whose extension is ".png" and whose base name is
    [name]. *)
Fixpoint last_png (Base Ext : string -> string) (visits : list Media.visit)
    (name : string) : option string :=
  match visits with
  | [] => None
  | (path, d) :: rest =>
      match last_png Base Ext rest name with
      | Some later => Some later
      | None =>
          match d with
          | Some true =>
              if String.eqb (Ext path) ".png" && String.eqb (Base path) name
              then Some path else None
          | _ => None
          end
      end
  end.

(** Whether a path holds a slash (the byte 0x2f; the dot is 0x2e). *)
Fixpoint has_slash (path : string) : bool :=
  match path with
  | EmptyString => false
  | String c rest => Byte.eqb (Ascii.byte_of_ascii c) x2f || has_slash rest
  end.

(** [filepath.Ext] on slash-separated paths: the suffix of the last
    element from its last dot on, empty when it has none. *)
Fixpoint ext_suffix (path : string) : option string :=
  match path with
  | EmptyString => None
  | String c rest =>
      match ext_suffix rest with
      | Some suffix => Some suffix
      | None =>
          if Byte.eqb (Ascii.byte_of_ascii c) x2e && negb (has_slash rest) then Some path else None
      end
  end.

Definition path_ext (path : string) : string :=
  default EmptyString (ext_suffix path).

(** [filepath.Base] on slash-separated paths: the last element, trailing
    slashes dropped; "." for the empty path and "/" for a path of slashes. *)
Fixpoint strip_trailing_slashes (path : string) : string :=
  match path with
  | EmptyString => EmptyString
  | String c rest =>
      match strip_trailing_slashes rest with
      | EmptyString => if Byte.eqb (Ascii.byte_of_ascii c) x2f then EmptyString else String c EmptyString
      | kept => String c kept
      end
  end.

Fixpoint last_element (path : string) : string :=
  match path with
  | EmptyString => EmptyString
  | String c rest =>
      if has_slash rest then last_element rest
      else if Byte.eqb (Ascii.byte_of_ascii c) x2f then rest else path
  end.

Definition path_base (path : string) : string :=
  match path with
  | EmptyString => "."%string
  | _ =>
      match last_element (strip_trailing_slashes path) with
      | EmptyString => "/"%string
      | element => element
      end
  end.

(** Loaders for a tree with one readable texture; every mesh fails. *)
Definition one_texture (path : string) : option Media.NRGBA :=
  if String.eqb path "media/textures/stone.png" then Some Media.blank_2x2
  else None.

Definition no_mesh (path : string) : res error unit := Err (ErrBackend 2).

(** The two colours of the placeholder image. *)
Definition magenta : Media.Color := Media.mkColor xff x00 xff xff.
Definition black : Media.Color := Media.mkColor x00 x00 x00 xff.

(** The flat index of a voxel without the wrap-around. *)
Definition linear_index (x y z : Z) : Z := z * 256 + y * 16 + x.


(** * Properties *)

(** ** Sequencing *)

Lemma bind_Ok {E A B} (a : A) (k : A -> res E B) : (Ok a ≫= k) = k a.
Proof. reflexivity. Qed.

Lemma bind_Ok_inv {E A B} (c : res E A) (k : A -> res E B) (b : B) :
  (c ≫= k) = Ok b -> exists a, c = Ok a /\ k a = Ok b.
Proof.
  destruct c as [a|e]; [|discriminate]. intros Hk. exists a. now split.
Qed.

(** One step of a sequence of calls whose first result is known. *)
Ltac bind_step H := rewrite H, bind_Ok; cbv beta iota.

(** ** Integer and slice lemmas *)

Section IntFacts.
Import GoInt.

Lemma wrap_int_small (v : Z) : in_int v -> wrap_int v = v.
Proof.
  unfold in_int, wrap_int; intros Hv.
  rewrite Z.mod_small by lia. lia.
Qed.

Lemma add_small (a b : Z) : in_int (a + b) -> add a b = a + b.
Proof. apply wrap_int_small. Qed.

Lemma mul_small (a b : Z) : in_int (a * b) -> mul a b = a * b.
Proof. apply wrap_int_small. Qed.

Lemma div_small (a b : Z) : in_int (Z.quot a b) -> div a b = Z.quot a b.
Proof. apply wrap_int_small. Qed.

Lemma u8_range (b : byte) : 0 <= u8 b < 256.
Proof.
  unfold u8. pose proof (Byte.to_N_bounded b) as Hb. lia.
Qed.

(** A byte shifted into the high half of a [uint16] does not wrap. *)
Lemma shift_byte_no_wrap (b : byte) :
  wrap_u16 (Z.shiftl (u8 b) 8) = Z.shiftl (u8 b) 8.
Proof.
  unfold wrap_u16. pose proof (u8_range b) as Hb.
  rewrite Z.shiftl_mul_pow2 by lia.
  apply Z.mod_small. lia.
Qed.

Lemma index_at_lookup {A} (l : list A) (k : Z) (a : A) :
  0 <= k -> l !! Z.to_nat k = Some a -> index_at l k = Ok a.
Proof.
  intros Hk Hl. unfold index_at.
  destruct (Z.ltb_spec k 0) as [?|_]; [lia|]. now rewrite Hl.
Qed.

End IntFacts.

(** Removes the wrap-around from sums and products that stay in range,
    innermost first. *)
Ltac int_small :=
  repeat match goal with
    | |- context [GoInt.mul ?a ?b] =>
        rewrite (mul_small a b) by (unfold GoInt.in_int; lia)
    | |- context [GoInt.add ?a ?b] =>
        rewrite (add_small a b) by (unfold GoInt.in_int; lia)
    end.

(** ** The flat index of a voxel *)

Section NodeIndex.
Import GoInt World.

Lemma node_index_small (x y z : Z) :
  -16 < x < 16 -> -16 < y < 16 -> -16 < z < 16 ->
  node_index x y z = z * 256 + y * 16 + x.
Proof.
  intros Hx Hy Hz. unfold node_index, MapBlockSize.
  int_small. lia.
Qed.

Lemma node_index_in_block (x y z : Z) :
  in_block x y z ->
  node_index x y z = z * MapBlockSize ^ 2 + y * MapBlockSize + x
  /\ 0 <= node_index x y z < MapBlockVolume.
Proof.
  unfold in_block, MapBlockVolume, MapBlockSize. intros (Hx & Hy & Hz).
  change (16 ^ 2) with 256.
  rewrite node_index_small by lia. split; lia.
Qed.

(** What [GetNode] reads, once the four accesses are known to hit. *)
Lemma GetNode_reads (b : MapBlock) (x y z : Z) (hi lo p1 p2 : byte) :
  in_block x y z ->
  let index := z * MapBlockSize ^ 2 + y * MapBlockSize + x in
  nodeData b !! Z.to_nat (2 * index) = Some hi ->
  nodeData b !! Z.to_nat (2 * index + 1) = Some lo ->
  nodeData b !! Z.to_nat (2 * MapBlockVolume + index) = Some p1 ->
  nodeData b !! Z.to_nat (3 * MapBlockVolume + index) = Some p2 ->
  GetNode b x y z = Ok (mkNode (Z.lor (Z.shiftl (u8 hi) 8) (u8 lo)) p1 p2).
Proof.
  intros Hin index Hhi Hlo Hp1 Hp2.
  destruct (node_index_in_block x y z Hin) as [Hidx Hrange].
  fold index in Hidx. unfold GetNode. rewrite Hidx.
  unfold MapBlockVolume, MapBlockSize in *.
  int_small.
  assert (0 <= index) as Hpos by lia.
  rewrite (index_at_lookup _ (2 * index) hi) by (assumption || lia).
  rewrite (index_at_lookup _ (2 * index + 1) lo) by (assumption || lia).
  rewrite (index_at_lookup _ (2 * (16 * 16 * 16) + index) p1)
    by (assumption || lia).
  rewrite (index_at_lookup _ (3 * (16 * 16 * 16) + index) p2)
    by (assumption || lia).
  cbn. now rewrite shift_byte_no_wrap.
Qed.

(** In a block with its full node data the four reads of [GetNode] hit. *)
Lemma GetNode_full_block (b : MapBlock) (x y z : Z) :
  length (nodeData b) = Z.to_nat (MapBlockVolume * NodeSizeInBytes) ->
  in_block x y z ->
  let index := z * MapBlockSize ^ 2 + y * MapBlockSize + x in
  exists hi lo p1 p2,
    nodeData b !! Z.to_nat (2 * index) = Some hi
    /\ nodeData b !! Z.to_nat (2 * index + 1) = Some lo
    /\ nodeData b !! Z.to_nat (2 * MapBlockVolume + index) = Some p1
    /\ nodeData b !! Z.to_nat (3 * MapBlockVolume + index) = Some p2
    /\ GetNode b x y z = Ok (mkNode (Z.lor (Z.shiftl (u8 hi) 8) (u8 lo)) p1 p2).
Proof.
  intros Hlen Hin index.
  destruct (node_index_in_block x y z Hin) as [Hidx Hrange].
  fold index in Hidx. rewrite Hidx in Hrange.
  assert (Hsome : forall k, 0 <= k < 16384 ->
            is_Some (nodeData b !! Z.to_nat k)).
  { intros k Hk. apply lookup_lt_is_Some_2. rewrite Hlen.
    unfold MapBlockVolume, MapBlockSize, NodeSizeInBytes. lia. }
  unfold MapBlockVolume, MapBlockSize in Hrange.
  destruct (Hsome (2 * index)) as [hi Hhi]; [lia|].
  destruct (Hsome (2 * index + 1)) as [lo Hlo]; [lia|].
  destruct (Hsome (2 * MapBlockVolume + index)) as [p1 Hp1];
    [unfold MapBlockVolume, MapBlockSize; lia|].
  destruct (Hsome (3 * MapBlockVolume + index)) as [p2 Hp2];
    [unfold MapBlockVolume, MapBlockSize; lia|].
  exists hi, lo, p1, p2. repeat split; try assumption.
  apply GetNode_reads; assumption.
Qed.

End NodeIndex.

(** ** Queries on one block *)

Section BlockQueries.
Import GoInt World.

(** C4: for a local coordinate [(x, y, z)] inside a block with its
    16384 bytes of node data, [GetNode] uses the flat index
    [z*BlockSize^2 + y*BlockSize + x] and returns the ID [(hi << 8) | lo]
    of the bytes at [2*index] and [2*index+1]; the position [(0, 0, 1)]
    has flat index 256, so its ID comes from the bytes 512 and 513. *)
Theorem GetNode_flat_index_and_id (b : MapBlock) (x y z : Z) :
  length (nodeData b) = Z.to_nat (MapBlockVolume * NodeSizeInBytes) ->
  in_block x y z ->
  let index := z * MapBlockSize ^ 2 + y * MapBlockSize + x in
  node_index x y z = index
  /\ (exists hi lo p1 p2,
        nodeData b !! Z.to_nat (2 * index) = Some hi
        /\ nodeData b !! Z.to_nat (2 * index + 1) = Some lo
        /\ GetNode b x y z
           = Ok (mkNode (Z.lor (Z.shiftl (u8 hi) 8) (u8 lo)) p1 p2))
  /\ node_index 0 0 1 = 256.
Proof.
  intros Hlen Hin index.
  destruct (node_index_in_block x y z Hin) as [Hidx _].
  split; [exact Hidx|]. split; [|reflexivity].
  destruct (GetNode_full_block b x y z Hlen Hin)
    as (hi & lo & p1 & p2 & Hhi & Hlo & _ & _ & Hget).
  exists hi, lo, p1, p2. auto.
Qed.

Lemma GetNode_flat_index_and_id_witness :
  let b := mkMapBlock ∅ (replicate 512 x00 ++ [x12; x34] ++ replicate (Z.to_nat 15870) x00) in
  node_index 0 0 1 = 256
  /\ exists hi lo p1 p2,
       nodeData b !! 512%nat = Some hi /\ nodeData b !! 513%nat = Some lo
       /\ GetNode b 0 0 1 = Ok (mkNode (Z.lor (Z.shiftl (u8 hi) 8) (u8 lo)) p1 p2).
Proof.
  intros b.
  destruct (GetNode_flat_index_and_id b 0 0 1) as (Hidx & Hid & _).
  - vm_compute. reflexivity.
  - unfold in_block, MapBlockSize. lia.
  - split; [exact Hidx|exact Hid].
Defined.

(** C9: [ResolveName] is total: the mapped name when the table holds the
    ID, the empty string when it does not. *)
Theorem ResolveName_total (b : MapBlock) (id : Z) :
  (forall name, mappings b !! id = Some name -> ResolveName b id = name)
  /\ (mappings b !! id = None -> ResolveName b id = EmptyString).
Proof.
  unfold ResolveName. split.
  - intros name ->. reflexivity.
  - intros ->. reflexivity.
Qed.

Lemma ResolveName_total_witness :
  let b := mkMapBlock (<[5 := "default:stone"%string]> ∅) [] in
  ResolveName b 5 = "default:stone"%string /\ ResolveName b 6 = EmptyString.
Proof.
  intros b. destruct (ResolveName_total b 5) as [Hsome _].
  destruct (ResolveName_total b 6) as [_ Hnone].
  split; [apply Hsome|apply Hnone]; vm_compute; reflexivity.
Defined.

End BlockQueries.

(** ** Reading from a [bytes.Reader] *)

Section ReaderFacts.
Import GoInt World.

Lemma reads_NewReader (data : list byte) : reads (Bytes.NewReader data) data.
Proof. split; [simpl; lia|reflexivity]. Qed.

Lemma ReadFull_reads (r : Bytes.Reader) (bs post : list byte) :
  reads r (bs ++ post) ->
  exists r', Bytes.ReadFull r (length bs) = Ok (bs, r') /\ reads r' post.
Proof.
  intros [Hi Hrem]. destruct bs as [|b bs].
  - exists r. split; [reflexivity|]. split; assumption.
  - exists (Bytes.mkReader (Bytes.s r) (Bytes.i r + Z.of_nat (length (b :: bs)))).
    split.
    + unfold Bytes.ReadFull. cbn [length]. rewrite Hrem. cbn [app].
      destruct (Nat.ltb_spec (length (b :: bs ++ post)) (S (length bs)))
        as [Hlt|_].
      { cbn [length] in Hlt. rewrite length_app in Hlt. lia. }
      f_equal. f_equal.
      change (b :: bs ++ post) with ((b :: bs) ++ post).
      change (S (length bs)) with (length (b :: bs)).
      apply take_app_length.
    + split; [simpl; lia|].
      unfold Bytes.remaining in *. cbn [Bytes.s Bytes.i].
      rewrite Z2Nat.inj_add, Nat2Z.id by lia.
      rewrite <- drop_drop, Hrem. apply drop_app_length.
Qed.

Lemma ReadFull_length (r r' : Bytes.Reader) (n : nat) (bs : list byte) :
  Bytes.ReadFull r n = Ok (bs, r') -> length bs = n.
Proof.
  unfold Bytes.ReadFull. destruct n as [|n].
  - intros [= <- _]. reflexivity.
  - destruct (Bytes.remaining r) as [|b rest] eqn:Hrem; [discriminate|].
    destruct (Nat.ltb_spec (length (b :: rest)) (S n)) as [|Hge];
      [discriminate|].
    intros [= <- _].
    change (length (take (S n) (b :: rest)) = S n).
    rewrite length_take. lia.
Qed.

Lemma Seek_reads (r : Bytes.Reader) (pre post : list byte) :
  reads r (pre ++ post) ->
  exists r', Bytes.Seek r (Z.of_nat (length pre)) = Ok r' /\ reads r' post.
Proof.
  intros [Hi Hrem]. unfold Bytes.Seek.
  destruct (Z.ltb_spec (Bytes.i r + Z.of_nat (length pre)) 0) as [?|_]; [lia|].
  eexists. split; [reflexivity|]. split; [simpl; lia|].
  unfold Bytes.remaining in *. cbn [Bytes.s Bytes.i].
  rewrite Z2Nat.inj_add, Nat2Z.id by lia.
  rewrite <- drop_drop, Hrem. apply drop_app_length.
Qed.

Lemma u8_byte_of_Z (v : Z) : 0 <= v < 256 -> u8 (Encode.byte_of_Z v) = v.
Proof.
  intros Hv. unfold u8, Encode.byte_of_Z.
  destruct (Byte.of_N (Z.to_N v)) as [b|] eqn:Hb.
  - apply Byte.to_of_N in Hb. simpl. rewrite Hb. lia.
  - apply Byte.of_N_None_iff in Hb. lia.
Qed.

(** Two bytes joined by [|] are the big-endian number they spell. *)
Lemma lor_shift_byte (hi lo : Z) :
  0 <= hi -> 0 <= lo < 256 -> Z.lor lo (Z.shiftl hi 8) = hi * 256 + lo.
Proof.
  intros Hhi Hlo.
  rewrite Z.shiftl_mul_pow2 by lia.
  assert (Z.land lo (hi * 2 ^ 8) = 0) as Hland.
  { apply Z.bits_inj'. intros n Hn.
    rewrite Z.land_spec, Z.bits_0.
    destruct (Z.lt_ge_cases n 8) as [Hlt|Hge].
    - rewrite (Z.mul_pow2_bits_low hi 8 n) by lia. apply andb_false_r.
    - rewrite (Z.bits_above_log2 lo n); [reflexivity|lia|].
      destruct (Z.eq_dec lo 0) as [->|Hne]; [simpl; lia|].
      apply Z.lt_le_trans with 8; [|lia].
      apply Z.log2_lt_pow2; lia. }
  rewrite <- Z.lxor_lor, <- Z.add_nocarry_lxor by exact Hland.
  change (2 ^ 8) with 256. lia.
Qed.

Lemma be_u16_encode (v : Z) :
  0 <= v < 65536 ->
  be_u16 (Encode.byte_of_Z (v / 256)) (Encode.byte_of_Z (v mod 256)) = v.
Proof.
  intros Hv. unfold be_u16.
  assert (0 <= v / 256 < 256) as Hhi
    by (split; [apply Z.div_pos|apply Z.div_lt_upper_bound]; lia).
  assert (0 <= v mod 256 < 256) as Hlo by (apply Z.mod_pos_bound; lia).
  rewrite shift_byte_no_wrap, !u8_byte_of_Z by assumption.
  rewrite lor_shift_byte by lia.
  pose proof (Z.div_mod v 256). lia.
Qed.

End ReaderFacts.

(** ** Reading the fields of a block *)

Section FieldFacts.
Import GoInt World.

Lemma readU16_reads (r : Bytes.Reader) (v : Z) (post : list byte) :
  0 <= v < 65536 ->
  reads r (Encode.u16 v ++ post) ->
  exists r', readU16 r = Ok (v, r') /\ reads r' post.
Proof.
  intros Hv Hr.
  destruct (ReadFull_reads r (Encode.u16 v) post Hr) as (r' & Hread & Hr').
  exists r'. split; [|exact Hr'].
  unfold readU16. cbn [length Encode.u16] in Hread. bind_step Hread.
  cbn [nth Encode.u16]. now rewrite be_u16_encode.
Qed.

Lemma readString_reads (r : Bytes.Reader) (name : string) (post : list byte) :
  Z.of_nat (length (list_byte_of_string name)) < 65536 ->
  reads r (Encode.str name ++ post) ->
  exists r', readString r = Ok (name, r') /\ reads r' post.
Proof.
  intros Hlen Hr. unfold Encode.str in Hr. rewrite <- app_assoc in Hr.
  assert (0 <= Z.of_nat (length (list_byte_of_string name)) < 65536)
    as Hrange by lia.
  destruct (readU16_reads r _ _ Hrange Hr) as (r1 & Hlen16 & Hr1).
  destruct (ReadFull_reads r1 _ post Hr1) as (r2 & Hbuf & Hr2).
  exists r2. split; [|exact Hr2].
  unfold readString. bind_step Hlen16. rewrite Nat2Z.id. bind_step Hbuf.
  now rewrite string_of_list_byte_of_string.
Qed.

Lemma readMappings_reads (entries : list (Z * string)) :
  forall (r : Bytes.Reader) (m : gmap Z string) (post : list byte),
    Forall Encode.fits entries ->
    reads r (flat_map Encode.entry entries ++ post) ->
    exists r',
      readMappings (length entries) r m = Ok (assign_all m entries, r')
      /\ reads r' post.
Proof.
  induction entries as [|[id name] entries IH]; intros r m post Hfit Hr.
  - exists r. split; [reflexivity|exact Hr].
  - apply Forall_cons in Hfit as [[Hid Hname] Hfit]. cbn [fst snd] in *.
    cbn [flat_map] in Hr. unfold Encode.entry in Hr at 1.
    cbn [fst snd] in Hr. rewrite <- !app_assoc in Hr.
    destruct (readU16_reads r id _ Hid Hr) as (r1 & Hread1 & Hr1).
    destruct (readString_reads r1 name _ Hname Hr1) as (r2 & Hread2 & Hr2).
    destruct (IH r2 (<[id := name]> m) post Hfit Hr2) as (r3 & Hread3 & Hr3).
    exists r3. split; [|exact Hr3].
    cbn [length readMappings]. bind_step Hread1. bind_step Hread2.
    exact Hread3.
Qed.

(** The last assignment to an ID is the one the table keeps. *)
Lemma assign_all_last (pre post : list (Z * string)) (m : gmap Z string)
    (id : Z) (name : string) :
  id ∉ map fst post ->
  assign_all m (pre ++ (id, name) :: post) !! id = Some name.
Proof.
  intros Hnot. unfold assign_all. rewrite fold_left_app. cbn [fold_left fst snd].
  generalize (fold_left (fun m e => <[fst e := snd e]> m) pre m). intros m0.
  assert (Hkeep : forall m1 : gmap Z string,
            m1 !! id = Some name ->
            fold_left (fun m e => <[fst e := snd e]> m) post m1 !! id = Some name).
  { induction post as [|[k v] post IH]; intros m1 Hm1; [exact Hm1|].
    cbn [map fst] in Hnot. apply not_elem_of_cons in Hnot as [Hne Hnot].
    cbn [fold_left fst snd]. apply IH; [exact Hnot|].
    rewrite lookup_insert_ne by congruence. exact Hm1. }
  apply Hkeep. apply lookup_insert_eq.
Qed.

End FieldFacts.

(** ** Decoding a block *)

Section DecodeFacts.
Import GoInt World.
Context `{ZstdDecoder}.

Lemma u8_version_29 (b : byte) : u8 b = 29 -> b = x1d.
Proof.
  unfold u8. intros Hb. pose proof (Byte.of_to_N b) as Hof.
  replace (Byte.to_N b) with 29%N in Hof by lia.
  now injection Hof.
Qed.

Lemma readU8_first (b : byte) (rest : list byte) :
  exists r, readU8 (Bytes.NewReader (b :: rest)) = Ok (b, r) /\ reads r rest.
Proof.
  destruct (ReadFull_reads (Bytes.NewReader (b :: rest)) [b] rest
              (reads_NewReader _)) as (r & Hread & Hr).
  exists r. split; [|exact Hr]. unfold readU8.
  cbn [length] in Hread. now bind_step Hread.
Qed.

(** C5: an input whose first byte is not 29 is refused with the
    unsupported-version error; no block is returned for it. *)
Theorem DecodeMapBlock_version_guard (data rest : list byte) (version : byte) :
  data = version :: rest ->
  version <> x1d ->
  DecodeMapBlock data = Err (ErrUnsupportedVersion version)
  /\ forall block, DecodeMapBlock data <> Ok block.
Proof.
  intros -> Hv.
  assert (DecodeMapBlock (version :: rest) = Err (ErrUnsupportedVersion version))
    as Herr.
  { unfold DecodeMapBlock.
    destruct (readU8_first version rest) as (r & Hread & _).
    bind_step Hread.
    destruct (Z.eqb_spec (u8 version) 29) as [H29|_]; [|reflexivity].
    now apply u8_version_29 in H29. }
  split; [exact Herr|]. intros block. rewrite Herr. discriminate.
Qed.

(** A well-formed stream decodes to its table and its node data. *)
Lemma DecodeMapBlock_payload (body meta widths nodes trailing : list byte)
    (entries : list (Z * string)) :
  length meta = 8%nat ->
  length widths = 2%nat ->
  length nodes = Z.to_nat (MapBlockVolume * NodeSizeInBytes) ->
  Z.of_nat (length entries) < 65536 ->
  Forall Encode.fits entries ->
  zstd_read_all body = Ok (Encode.payload meta entries widths nodes ++ trailing) ->
  DecodeMapBlock (x1d :: body) = Ok (mkMapBlock (assign_all ∅ entries) nodes).
Proof.
  intros Hmeta Hwidths Hnodes Hcount Hfit Hzstd. unfold DecodeMapBlock.
  destruct (readU8_first x1d body) as (r0 & Hread0 & [_ Hr0]).
  bind_step Hread0. cbn [negb]. change (u8 x1d =? 29) with true. cbn [negb].
  unfold Encode.payload in Hzstd. rewrite <- !app_assoc in Hzstd.
  rewrite Hr0. bind_step Hzstd.
  match goal with
  | |- context [Bytes.NewReader ?l] => pose proof (reads_NewReader l) as Hr
  end.
  destruct (Seek_reads _ _ _ Hr) as (r1 & Hseek1 & Hr1).
  rewrite Hmeta in Hseek1. change (1 + 2 + 4 + 1) with (Z.of_nat 8).
  bind_step Hseek1.
  assert (0 <= Z.of_nat (length entries) < 65536) as Hcount' by lia.
  destruct (readU16_reads r1 _ _ Hcount' Hr1) as (r2 & Hcnt & Hr2).
  bind_step Hcnt. rewrite Nat2Z.id.
  destruct (readMappings_reads entries r2 ∅ _ Hfit Hr2) as (r3 & Hmap & Hr3).
  bind_step Hmap.
  destruct (Seek_reads _ _ _ Hr3) as (r4 & Hseek2 & Hr4).
  rewrite Hwidths in Hseek2. change (1 + 1) with (Z.of_nat 2).
  bind_step Hseek2.
  destruct (ReadFull_reads _ _ _ Hr4) as (r5 & Hdata & _).
  rewrite Hnodes in Hdata. bind_step Hdata. reflexivity.
Qed.

Lemma DecodeMapBlock_nodeData_length (data : list byte) (block : MapBlock) :
  DecodeMapBlock data = Ok block ->
  length (nodeData block) = Z.to_nat (MapBlockVolume * NodeSizeInBytes).
Proof.
  unfold DecodeMapBlock. intros Hdec.
  apply bind_Ok_inv in Hdec as ([version r0] & _ & Hdec).
  destruct (negb (u8 version =? 29)); [discriminate|].
  apply bind_Ok_inv in Hdec as (payload & _ & Hdec).
  apply bind_Ok_inv in Hdec as (r1 & _ & Hdec).
  apply bind_Ok_inv in Hdec as ([count r2] & _ & Hdec).
  apply bind_Ok_inv in Hdec as ([table r3] & _ & Hdec).
  apply bind_Ok_inv in Hdec as (r4 & _ & Hdec).
  apply bind_Ok_inv in Hdec as ([nodes r5] & Hread & Hdec).
  injection Hdec as <-. cbn [nodeData].
  exact (ReadFull_length _ _ _ _ Hread).
Qed.

End DecodeFacts.

Lemma DecodeMapBlock_version_guard_witness :
  World.DecodeMapBlock (H := stored_decoder) [x1c; x00; x00]
    = Err (ErrUnsupportedVersion x1c)
  /\ forall block,
       World.DecodeMapBlock (H := stored_decoder) [x1c; x00; x00] <> Ok block.
Proof.
  apply (DecodeMapBlock_version_guard (H := stored_decoder)
           [x1c; x00; x00] [x00; x00] x1c).
  - reflexivity.
  - discriminate.
Defined.

Section DecodedBlocks.
Import GoInt World.
Context `{ZstdDecoder}.

(** C7: a mapping table that names the same ID more than once decodes
    without error, and [ResolveName] gives the name read last for it. *)
Theorem DecodeMapBlock_duplicate_id_last_wins
    (body meta widths nodes trailing : list byte)
    (pre mid post : list (Z * string)) (id : Z) (first last : string) :
  let entries := pre ++ (id, first) :: mid ++ (id, last) :: post in
  length meta = 8%nat ->
  length widths = 2%nat ->
  length nodes = Z.to_nat (MapBlockVolume * NodeSizeInBytes) ->
  Z.of_nat (length entries) < 65536 ->
  Forall Encode.fits entries ->
  id ∉ map fst post ->
  zstd_read_all body = Ok (Encode.payload meta entries widths nodes ++ trailing) ->
  exists block,
    DecodeMapBlock (x1d :: body) = Ok block
    /\ ResolveName block id = last.
Proof.
  intros entries Hmeta Hwidths Hnodes Hcount Hfit Hlast Hzstd.
  exists (mkMapBlock (assign_all ∅ entries) nodes). split.
  - now apply (DecodeMapBlock_payload body meta widths nodes trailing entries).
  - unfold ResolveName. cbn [mappings]. subst entries.
    change (pre ++ (id, first) :: mid ++ (id, last) :: post)
      with (pre ++ ((id, first) :: mid) ++ (id, last) :: post).
    rewrite app_assoc, assign_all_last by exact Hlast. reflexivity.
Qed.

(** C10: a block that [DecodeMapBlock] returns carries exactly
    [MapBlockVolume * NodeSizeInBytes = 16384] bytes of node data, so for
    a local coordinate inside the block the four offsets [GetNode] reads
    lie inside the data and [GetNode] returns a node. *)
Theorem DecodeMapBlock_GetNode_in_bounds (data : list byte) (block : MapBlock) :
  DecodeMapBlock data = Ok block ->
  Z.of_nat (length (nodeData block)) = 16384
  /\ forall x y z, in_block x y z ->
       let index := node_index x y z in
       let len := Z.of_nat (length (nodeData block)) in
       0 <= mul 2 index < len
       /\ 0 <= add (mul 2 index) 1 < len
       /\ 0 <= add (2 * MapBlockVolume) index < len
       /\ 0 <= add (3 * MapBlockVolume) index < len
       /\ exists node, GetNode block x y z = Ok node.
Proof.
  intros Hdec. apply DecodeMapBlock_nodeData_length in Hdec as Hlen.
  split; [rewrite Hlen; vm_compute; reflexivity|].
  intros x y z Hin index len.
  destruct (node_index_in_block x y z Hin) as [_ Hrange].
  fold index in Hrange. subst len. rewrite Hlen.
  unfold MapBlockVolume, MapBlockSize, NodeSizeInBytes in *.
  int_small. repeat (split; [lia|]).
  destruct (GetNode_full_block block x y z Hlen Hin)
    as (hi & lo & p1 & p2 & _ & _ & _ & _ & Hget).
  eexists. exact Hget.
Qed.

End DecodedBlocks.

Lemma DecodeMapBlock_duplicate_id_last_wins_witness :
  let entries := [(5, "default:dirt"%string); (5, "default:stone"%string)] in
  let body := Encode.payload (replicate 8 x00) entries [x02; x02]
                (replicate (Z.to_nat 16384) x00) in
  exists block,
    World.DecodeMapBlock (H := stored_decoder) (x1d :: body) = Ok block
    /\ World.ResolveName block 5 = "default:stone"%string.
Proof.
  intros entries body.
  apply (DecodeMapBlock_duplicate_id_last_wins (H := stored_decoder)
           body (replicate 8 x00) [x02; x02] (replicate (Z.to_nat 16384) x00) []
           [] [] [] 5 "default:dirt"%string "default:stone"%string).
  - reflexivity.
  - reflexivity.
  - vm_compute. reflexivity.
  - vm_compute. reflexivity.
  - repeat constructor; vm_compute; congruence.
  - vm_compute. intros Hin. inversion Hin.
  - unfold stored_decoder, zstd_read_all. now rewrite app_nil_r.
Defined.

Lemma DecodeMapBlock_GetNode_in_bounds_witness :
  let data := x1d :: Encode.payload (replicate 8 x00) [] [x02; x02]
                       (replicate (Z.to_nat 16384) x00) in
  let block := World.mkMapBlock ∅ (replicate (Z.to_nat 16384) x00) in
  World.DecodeMapBlock (H := stored_decoder) data = Ok block
  /\ Z.of_nat (length (World.nodeData block)) = 16384
  /\ exists node, World.GetNode block 15 15 15 = Ok node.
Proof.
  intros data block.
  assert (World.DecodeMapBlock (H := stored_decoder) data = Ok block) as Hdec
    by (vm_compute; reflexivity).
  destruct (DecodeMapBlock_GetNode_in_bounds (H := stored_decoder) data block Hdec)
    as [Hlen Hget].
  split; [exact Hdec|]. split; [exact Hlen|].
  destruct (Hget 15 15 15) as (_ & _ & _ & _ & Hnode).
  - unfold in_block, World.MapBlockSize. lia.
  - exact Hnode.
Defined.

(** ** The neighborhood *)

Section Neighborhood.
Import GoInt Spatial Render.

(** C6: a position whose cell holds no block reads as air: [GetNode]
    returns [("air", 0, 0)] and [GetParam1] returns 0, neither panics. *)
Theorem GetNode_absent_cell_is_air (b : BlockNeighborhood) (pos : NodePos.t) :
  getBlockByNodePos b pos = Ok None ->
  GetNode b pos = Ok ("air"%string, x00, x00)
  /\ GetParam1 b pos = Ok x00.
Proof.
  intros Hcell. unfold GetNode, GetParam1. rewrite Hcell. split; reflexivity.
Qed.

Lemma GetNode_absent_cell_is_air_witness :
  GetNode zero (NodePos.mk 20 5 5) = Ok ("air"%string, x00, x00)
  /\ GetParam1 zero (NodePos.mk 20 5 5) = Ok x00.
Proof.
  apply (GetNode_absent_cell_is_air zero (NodePos.mk 20 5 5)).
  vm_compute. reflexivity.
Defined.

(** [SetBlock] at the shifted position of an offset in [{-1,0,1}^3]
    writes the cell [stored_cell] and no other. *)
Lemma SetBlock_shifted_offset (b : BlockNeighborhood) (o : BlockPos.t)
    (block : option World.MapBlock) :
  wf b -> offset_in_range o ->
  exists b',
    SetBlock b (BlockPos.Add neighborhoodCenter o) block = Ok b'
    /\ blocks b' !! stored_cell o = Some block
    /\ forall j, j <> stored_cell o -> blocks b' !! j = blocks b !! j.
Proof.
  unfold wf, offset_in_range. intros Hwf (Hx & Hy & Hz).
  destruct o as [ox oy oz]. cbn [BlockPos.X BlockPos.Y BlockPos.Z] in *.
  unfold SetBlock, BlockPos.Add, neighborhoodCenter, stored_cell.
  cbn [BlockPos.X BlockPos.Y BlockPos.Z]. int_small.
  replace ((1 + ox) * 9 + (1 + oy) * 3 + (1 + oz))
    with ((ox + 1) * 9 + (oy + 1) * 3 + (oz + 1)) by lia.
  set (cell := (ox + 1) * 9 + (oy + 1) * 3 + (oz + 1)).
  assert (0 <= cell < 27) as Hcell by (subst cell; lia).
  unfold store_at. rewrite Hwf.
  destruct (Z.leb_spec 0 cell) as [_|?]; [|lia].
  destruct (Z.ltb_spec cell (Z.of_nat 27)) as [_|?]; [|lia].
  cbn [andb]. rewrite bind_Ok. eexists. split; [reflexivity|].
  cbn [blocks]. split.
  - apply list_lookup_insert_eq. lia.
  - intros j Hj. now apply list_lookup_insert_ne.
Qed.

End Neighborhood.

Section Fetching.
Import GoInt Spatial Render.
Context `{ZstdDecoder}.

(** C8: when the fetch or the decode of the block at [worldPos + posOffset]
    fails, [FetchBlock] returns the neighborhood as it was: the error is
    absorbed and the cell is not filled.  When both succeed, for an offset
    in [{-1,0,1}^3], the decoded block is stored in the cell of that
    offset and the other cells keep their content. *)
Theorem FetchBlock_absorbs_failure (b : BlockNeighborhood) (w : World.World)
    (posOffset worldPos : BlockPos.t) :
  let at_ := BlockPos.Add worldPos posOffset in
  let fetched :=
    World.backend w (BlockPos.X at_) (BlockPos.Y at_) (BlockPos.Z at_) in
  (forall e, fetched = Err e -> FetchBlock b w posOffset worldPos = Ok b)
  /\ (forall data e,
        fetched = Ok data -> World.DecodeMapBlock data = Err e ->
        FetchBlock b w posOffset worldPos = Ok b)
  /\ (forall data block,
        fetched = Ok data -> World.DecodeMapBlock data = Ok block ->
        wf b -> offset_in_range posOffset ->
        exists b',
          FetchBlock b w posOffset worldPos = Ok b'
          /\ blocks b' !! stored_cell posOffset = Some (Some block)
          /\ forall j, j <> stored_cell posOffset ->
               blocks b' !! j = blocks b !! j).
Proof.
  intros at_ fetched.
  unfold FetchBlock, World_GetBlock, World.GetBlock. fold at_. fold fetched.
  split; [|split].
  - intros e ->. reflexivity.
  - intros data e -> Hdec. rewrite bind_Ok, Hdec. reflexivity.
  - intros data block -> Hdec Hwf Hoff. rewrite bind_Ok, Hdec, bind_Ok.
    now apply SetBlock_shifted_offset.
Qed.

End Fetching.

Lemma FetchBlock_absorbs_failure_witness :
  let w := single_block_world stone_data in
  let origin := Spatial.BlockPos.mk 0 0 0 in
  Render.FetchBlock (H := stored_decoder) Render.zero w
    (Spatial.BlockPos.mk 1 0 0) origin = Ok Render.zero
  /\ Render.FetchBlock (H := stored_decoder) Render.zero
       (single_block_world [x1c]) origin origin = Ok Render.zero
  /\ exists b',
       Render.FetchBlock (H := stored_decoder) Render.zero w origin origin = Ok b'
       /\ Render.blocks b' !! 13%nat = Some (Some stone_block).
Proof.
  intros w origin. split; [|split].
  - destruct (FetchBlock_absorbs_failure (H := stored_decoder) Render.zero w
                (Spatial.BlockPos.mk 1 0 0) origin) as (Hfail & _ & _).
    apply (Hfail (ErrBackend 0)). vm_compute. reflexivity.
  - destruct (FetchBlock_absorbs_failure (H := stored_decoder) Render.zero
                (single_block_world [x1c]) origin origin) as (_ & Hfail & _).
    apply (Hfail [x1c] (ErrUnsupportedVersion x1c)); vm_compute; reflexivity.
  - destruct (FetchBlock_absorbs_failure (H := stored_decoder) Render.zero w
                origin origin) as (_ & _ & Hstore).
    destruct (Hstore stone_data stone_block) as (b' & Hfetch & Hcell & _).
    + vm_compute. reflexivity.
    + vm_compute. reflexivity.
    + reflexivity.
    + unfold offset_in_range. simpl. lia.
    + exists b'. split; [exact Hfetch|exact Hcell].
Defined.

(** ** Where the neighborhood looks *)

Section CellResolution.
Import GoInt Spatial Render.

(** On an axis whose coordinate is in [(-16, 16)] the truncating division
    gives 0 and the remainder is the coordinate itself, negative or not. *)
Lemma div_rem_within_block (a : Z) :
  -16 < a < 16 -> div a BlockSize = 0 /\ rem a BlockSize = a.
Proof.
  intros Ha. unfold BlockSize, rem.
  assert (Z.quot a 16 = 0) as Hq by (apply Z.quot_small_iff; lia).
  split.
  - rewrite div_small; [exact Hq|]. rewrite Hq. unfold in_int. lia.
  - apply Z.rem_small_iff; lia.
Qed.

(** Every position within 15 voxels of the origin on each axis, negative
    components included, is resolved to the center cell, and handed to the
    block unchanged. *)
Lemma cell_of_node_within_block (x y z : Z) :
  -16 < x < 16 -> -16 < y < 16 -> -16 < z < 16 ->
  cell_of_node (NodePos.mk x y z) = 13
  /\ local_pos (NodePos.mk x y z) = NodePos.mk x y z.
Proof.
  intros Hx Hy Hz.
  destruct (div_rem_within_block x Hx) as [Hdx Hrx].
  destruct (div_rem_within_block y Hy) as [Hdy Hry].
  destruct (div_rem_within_block z Hz) as [Hdz Hrz].
  unfold cell_of_node, local_pos. cbn [NodePos.X NodePos.Y NodePos.Z].
  rewrite Hdx, Hdy, Hdz, Hrx, Hry, Hrz. split; reflexivity.
Qed.

(** For a non-negative offset [o] and a node of the block at [o], the cell
    that [getBlockByNodePos] reads is the one [SetBlock] writes for the
    offset with X and Z exchanged. *)
Lemma cell_of_node_transposed (o : BlockPos.t) (pos : NodePos.t) :
  0 <= BlockPos.X o <= 1 -> 0 <= BlockPos.Y o <= 1 -> 0 <= BlockPos.Z o <= 1 ->
  0 <= NodePos.X pos - BlockSize * BlockPos.X o < BlockSize ->
  0 <= NodePos.Y pos - BlockSize * BlockPos.Y o < BlockSize ->
  0 <= NodePos.Z pos - BlockSize * BlockPos.Z o < BlockSize ->
  cell_of_node pos
  = Z.of_nat (stored_cell (BlockPos.mk (BlockPos.Z o) (BlockPos.Y o) (BlockPos.X o))).
Proof.
  destruct o as [ox oy oz], pos as [x y z]. unfold BlockSize, stored_cell.
  cbn [BlockPos.X BlockPos.Y BlockPos.Z NodePos.X NodePos.Y NodePos.Z].
  intros Hox Hoy Hoz Hx Hy Hz.
  assert (forall a k, 0 <= k <= 1 -> 0 <= a - 16 * k < 16 -> div a 16 = k)
    as Hdiv.
  { intros a k Hk Ha.
    assert (Z.quot a 16 = k) as Hq.
    { rewrite Z.quot_div_nonneg by lia. symmetry.
      apply (Z.div_unique a 16 k (a - 16 * k)); lia. }
    rewrite div_small; [exact Hq|]. rewrite Hq. unfold in_int. lia. }
  unfold cell_of_node, BlockSize, neighborhoodCenter.
  cbn [BlockPos.X BlockPos.Y BlockPos.Z NodePos.X NodePos.Y NodePos.Z].
  rewrite (Hdiv x ox), (Hdiv y oy), (Hdiv z oz) by assumption.
  int_small. lia.
Qed.

(** C1 (the code at the claim's input): the position [(-1, 5, 5)] lies in
    the neighbor at offset [(-1, 0, 0)], voxel [(15, 5, 5)], by floor
    division and non-negative modulo.  The truncating [/] and [%] of the
    code give the center cell 13 and the local position [(-1, 5, 5)]:
    with stone in the center and dirt around it the query answers from
    the center block, and at [(-1, 0, 0)] it indexes the node data at -2. *)
Theorem GetNode_negative_position_reads_center :
  let pos := NodePos.mk (-1) 5 5 in
  ((-1) `div` BlockSize = -1 /\ (-1) `mod` BlockSize = 15)
  /\ cell_of_node pos = 13
  /\ cell_of_node (NodePos.mk 0 0 0) = 13
  /\ local_pos pos = NodePos.mk (-1) 5 5
  /\ GetNode stone_among_dirt pos = Ok ("default:stone"%string, x0f, x0f)
  /\ GetNode stone_among_dirt (NodePos.mk (-1) 0 0)
     = Err (IndexOutOfRange (-2) (Z.to_nat 16384)).
Proof.
  intros pos.
  split; [split; reflexivity|].
  do 3 (split; [reflexivity|]).
  split; vm_compute; reflexivity.
Qed.

(** C2 (the code at a failing input): [SetBlock] files the block of
    offset [(1, 0, 0)] under [x*9 + y*3 + z = 22], while
    [getBlockByNodePos] resolves the node [(16, 0, 0)] of that block to
    [z*9 + y*3 + x = 14]; the query finds no block there and answers air.
    The stored block is found at the node [(0, 0, 16)] instead. *)
Theorem SetBlock_getBlockByNodePos_cells_differ :
  let o := BlockPos.mk 1 0 0 in
  let pos := NodePos.mk 16 0 0 in
  (NodePos.X pos `div` BlockSize, NodePos.Y pos `div` BlockSize,
   NodePos.Z pos `div` BlockSize) = (BlockPos.X o, BlockPos.Y o, BlockPos.Z o)
  /\ exists b',
       SetBlock zero (BlockPos.Add neighborhoodCenter o) (Some stone_block) = Ok b'
       /\ blocks b' !! 22%nat = Some (Some stone_block)
       /\ cell_of_node pos = 14
       /\ getBlockByNodePos b' pos = Ok None
       /\ GetNode b' pos = Ok ("air"%string, x00, x00)
       /\ getBlockByNodePos b' (NodePos.mk 0 0 16) = Ok (Some stone_block).
Proof.
  intros o pos. split; [reflexivity|].
  exists (mkBlockNeighborhood (<[22%nat := Some stone_block]> (blocks zero))).
  split; [reflexivity|].
  split; [reflexivity|].
  split; [reflexivity|].
  split; [reflexivity|].
  split; reflexivity.
Qed.

End CellResolution.

(** ** The layout of the node data *)

Section NodeLayout.
Import GoInt World.

Lemma length_flat_map_id_bytes (ids : list (byte * byte)) :
  length (flat_map id_bytes ids) = (2 * length ids)%nat.
Proof.
  induction ids as [|id ids IH]; [reflexivity|].
  cbn [flat_map id_bytes app length]. rewrite IH. lia.
Qed.

(** The ID of voxel [i] occupies the bytes [2*i] and [2*i+1]. *)
Lemma lookup_flat_map_id_bytes (ids : list (byte * byte)) :
  forall (i : nat) (hi lo : byte) (rest : list byte),
    ids !! i = Some (hi, lo) ->
    (flat_map id_bytes ids ++ rest) !! (2 * i)%nat = Some hi
    /\ (flat_map id_bytes ids ++ rest) !! (2 * i + 1)%nat = Some lo.
Proof.
  induction ids as [|id ids IH]; intros i hi lo rest Hi; [discriminate|].
  destruct i as [|i].
  - injection Hi as ->. split; reflexivity.
  - replace (2 * S i)%nat with (S (S (2 * i))) by lia.
    cbn [flat_map id_bytes app Nat.add].
    exact (IH i hi lo rest Hi).
Qed.

(** C3, as amended: the node data holds the 4096 IDs as consecutive
    big-endian byte pairs (voxel [i] at [2*i] and [2*i+1]), then the 4096
    param1 bytes, then the 4096 param2 bytes, and [GetNode] reads a voxel's
    ID, param1 and param2 from those positions. *)
Theorem GetNode_interleaved_layout (m : gmap Z string)
    (ids : list (byte * byte)) (p1P p2P : list byte)
    (x y z : Z) (hi lo p1 p2 : byte) :
  length ids = Z.to_nat MapBlockVolume ->
  length p1P = Z.to_nat MapBlockVolume ->
  in_block x y z ->
  let index := Z.to_nat (z * MapBlockSize ^ 2 + y * MapBlockSize + x) in
  ids !! index = Some (hi, lo) ->
  p1P !! index = Some p1 ->
  p2P !! index = Some p2 ->
  GetNode (mkMapBlock m (interleaved_layout ids p1P p2P)) x y z
  = Ok (mkNode (Z.lor (Z.shiftl (u8 hi) 8) (u8 lo)) p1 p2).
Proof.
  intros Hids Hp1P Hin index Hid Hp1 Hp2.
  destruct (node_index_in_block x y z Hin) as [_ Hrange].
  destruct (node_index_in_block x y z Hin) as [Hidx _].
  rewrite Hidx in Hrange. clear Hidx.
  set (k := z * MapBlockSize ^ 2 + y * MapBlockSize + x) in *.
  destruct (lookup_flat_map_id_bytes ids index hi lo (p1P ++ p2P) Hid)
    as [Hhi Hlo].
  pose proof (length_flat_map_id_bytes ids) as Hlen.
  unfold MapBlockVolume, MapBlockSize in Hrange, Hids, Hp1P.
  apply GetNode_reads; [exact Hin|..]; fold k;
    cbn [nodeData]; unfold interleaved_layout.
  - replace (Z.to_nat (2 * k)) with (2 * index)%nat by (subst index; lia).
    exact Hhi.
  - replace (Z.to_nat (2 * k + 1)) with (2 * index + 1)%nat
      by (subst index; lia).
    exact Hlo.
  - rewrite lookup_app_r by (rewrite Hlen, Hids; unfold MapBlockVolume, MapBlockSize; lia).
    rewrite lookup_app_l by (rewrite Hp1P; unfold MapBlockVolume, MapBlockSize; lia).
    rewrite <- Hp1. f_equal. rewrite Hlen, Hids.
    unfold MapBlockVolume, MapBlockSize. subst index. lia.
  - rewrite lookup_app_r by (rewrite Hlen, Hids; unfold MapBlockVolume, MapBlockSize; lia).
    rewrite lookup_app_r
      by (rewrite Hlen, Hids, Hp1P; unfold MapBlockVolume, MapBlockSize; lia).
    rewrite <- Hp2. f_equal. rewrite Hlen, Hids, Hp1P.
    unfold MapBlockVolume, MapBlockSize. subst index. lia.
Qed.

End NodeLayout.

Lemma GetNode_interleaved_layout_witness :
  World.GetNode
    (World.mkMapBlock ∅
       (interleaved_layout (replicate (Z.to_nat 4096) (x12, x34))
          (replicate (Z.to_nat 4096) x03) (replicate (Z.to_nat 4096) x04)))
    15 15 15
  = Ok (World.mkNode 0x1234 x03 x04).
Proof.
  apply (GetNode_interleaved_layout ∅ (replicate (Z.to_nat 4096) (x12, x34))
           (replicate (Z.to_nat 4096) x03) (replicate (Z.to_nat 4096) x04)
           15 15 15 x12 x34 x03 x04).
  - vm_compute. reflexivity.
  - vm_compute. reflexivity.
  - unfold in_block, World.MapBlockSize. lia.
  - vm_compute. reflexivity.
  - vm_compute. reflexivity.
  - vm_compute. reflexivity.
Defined.

(** C3, as stated, at a concrete block: with the four planes filled with
    the bytes 1, 2, 3 and 4, a reader of the planes finds the ID 0x0102 at
    voxel [(0, 0, 0)]; [GetNode] returns the ID 0x0101, both of whose bytes
    come from the first plane. *)
Lemma GetNode_plane_layout_counterexample :
  let hiP := replicate (Z.to_nat 4096) x01 in
  let loP := replicate (Z.to_nat 4096) x02 in
  let p1P := replicate (Z.to_nat 4096) x03 in
  let p2P := replicate (Z.to_nat 4096) x04 in
  let b := World.mkMapBlock ∅ (plane_layout hiP loP p1P p2P) in
  in_block 0 0 0
  /\ plane_read hiP loP p1P p2P (Z.to_nat (World.node_index 0 0 0))
     = Some (World.mkNode 0x0102 x03 x04)
  /\ World.GetNode b 0 0 0 = Ok (World.mkNode 0x0101 x03 x04)
  /\ World.GetNode b 0 0 0 <> Ok (World.mkNode 0x0102 x03 x04).
Proof.
  intros hiP loP p1P p2P b.
  assert (World.GetNode b 0 0 0 = Ok (World.mkNode 0x0101 x03 x04)) as Hget
    by (vm_compute; reflexivity).
  split; [unfold in_block, World.MapBlockSize; lia|].
  split; [vm_compute; reflexivity|].
  split; [exact Hget|].
  rewrite Hget. discriminate.
Qed.

(** * Further properties of the codec *)

(** ** Positions of a reader *)

Section ReaderPositions.
Import GoInt World.

Lemma ReadFull_short (r : Bytes.Reader) (rest : list byte) (n : nat) :
  reads r rest -> (length rest < n)%nat ->
  Bytes.ReadFull r n = Err (short_read_error rest).
Proof.
  intros [_ Hrem] Hlt. unfold Bytes.ReadFull.
  destruct n as [|n]; [lia|]. rewrite Hrem.
  destruct rest as [|b rest]; [reflexivity|].
  destruct (Nat.ltb_spec (length (b :: rest)) (S n)) as [_|Hge]; [reflexivity|lia].
Qed.

(** A successful read keeps the slice, advances by what it read, and stays
    inside the slice when it read anything. *)
Lemma ReadFull_position (r r' : Bytes.Reader) (n : nat) (bs : list byte) :
  0 <= Bytes.i r ->
  Bytes.ReadFull r n = Ok (bs, r') ->
  Bytes.s r' = Bytes.s r
  /\ Bytes.i r' = Bytes.i r + Z.of_nat n
  /\ (n <> 0%nat -> Bytes.i r + Z.of_nat n <= Z.of_nat (length (Bytes.s r))).
Proof.
  intros Hi. unfold Bytes.ReadFull. destruct n as [|n].
  - intros [= _ <-]. repeat split; lia.
  - destruct (Bytes.remaining r) as [|b rest] eqn:Hrem; [discriminate|].
    destruct (Nat.ltb_spec (length (b :: rest)) (S n)) as [|Hge]; [discriminate|].
    intros [= _ <-]. cbn [Bytes.s Bytes.i]. repeat split.
    intros _. unfold Bytes.remaining in Hrem.
    assert (length (drop (Z.to_nat (Bytes.i r)) (Bytes.s r)) = length (b :: rest))
      as Hlen by now rewrite Hrem.
    rewrite length_drop in Hlen. lia.
Qed.

Lemma Seek_position (r r' : Bytes.Reader) (k : Z) :
  Bytes.Seek r k = Ok r' ->
  Bytes.s r' = Bytes.s r /\ Bytes.i r' = Bytes.i r + k.
Proof.
  unfold Bytes.Seek. destruct (_ <? 0); [discriminate|].
  intros [= <-]. split; reflexivity.
Qed.

Lemma readU16_position (r r' : Bytes.Reader) (v : Z) :
  0 <= Bytes.i r ->
  readU16 r = Ok (v, r') ->
  Bytes.s r' = Bytes.s r /\ Bytes.i r' = Bytes.i r + 2.
Proof.
  intros Hi Hread. unfold readU16 in Hread.
  apply bind_Ok_inv in Hread as ([bs r1] & Hfull & Hret).
  injection Hret as _ <-.
  destruct (ReadFull_position _ _ _ _ Hi Hfull) as (Hs & Hpos & _).
  split; [exact Hs|lia].
Qed.

Lemma readString_position (r r' : Bytes.Reader) (name : string) :
  0 <= Bytes.i r ->
  readString r = Ok (name, r') ->
  Bytes.s r' = Bytes.s r /\ Bytes.i r + 2 <= Bytes.i r'.
Proof.
  intros Hi Hread. unfold readString in Hread.
  apply bind_Ok_inv in Hread as ([len r1] & Hlen & Hread).
  apply bind_Ok_inv in Hread as ([buf r2] & Hbuf & Hret).
  injection Hret as _ <-.
  destruct (readU16_position _ _ _ Hi Hlen) as [Hs1 Hi1].
  destruct (ReadFull_position r1 r2 _ _ ltac:(lia) Hbuf) as (Hs2 & Hi2 & _).
  split; [congruence|lia].
Qed.

Lemma readMappings_position (count : nat) :
  forall (r r' : Bytes.Reader) (m m' : gmap Z string),
    0 <= Bytes.i r ->
    readMappings count r m = Ok (m', r') ->
    Bytes.s r' = Bytes.s r /\ Bytes.i r <= Bytes.i r'.
Proof.
  induction count as [|count IH]; intros r r' m m' Hi Hread.
  - injection Hread as _ <-. split; [reflexivity|lia].
  - cbn [readMappings] in Hread.
    apply bind_Ok_inv in Hread as ([id r1] & Hid & Hread).
    apply bind_Ok_inv in Hread as ([name r2] & Hname & Hread).
    destruct (readU16_position _ _ _ Hi Hid) as [Hs1 Hi1].
    destruct (readString_position r1 r2 _ ltac:(lia) Hname) as [Hs2 Hi2].
    destruct (IH r2 r' _ _ ltac:(lia) Hread) as [Hs3 Hi3].
    split; [congruence|lia].
Qed.

End ReaderPositions.

(** ** The field readers *)

Section FieldReaders.
Import GoInt World.

(** X1: [readU16] reads two bytes as a big-endian number: with the bytes
    [b0], [b1] ahead it returns [256*b0 + b1], a 16-bit value, and leaves
    the reader on what follows them. *)
Theorem readU16_big_endian (r : Bytes.Reader) (b0 b1 : byte) (post : list byte) :
  reads r (b0 :: b1 :: post) ->
  exists r',
    readU16 r = Ok (256 * u8 b0 + u8 b1, r')
    /\ reads r' post
    /\ 0 <= 256 * u8 b0 + u8 b1 < 65536.
Proof.
  intros Hr.
  destruct (ReadFull_reads r [b0; b1] post Hr) as (r' & Hread & Hr').
  pose proof (u8_range b0) as H0. pose proof (u8_range b1) as H1.
  exists r'. split; [|split; [exact Hr'|lia]].
  unfold readU16. cbn [length] in Hread. bind_step Hread.
  cbn [nth]. unfold be_u16.
  rewrite shift_byte_no_wrap, lor_shift_byte by lia.
  do 2 f_equal. lia.
Qed.

Lemma readU16_big_endian_witness :
  exists r',
    World.readU16 (Bytes.NewReader [x12; x34; x56]) = Ok (0x1234, r')
    /\ reads r' [x56].
Proof.
  destruct (readU16_big_endian (Bytes.NewReader [x12; x34; x56]) x12 x34 [x56])
    as (r' & Hread & Hr' & _).
  - apply reads_NewReader.
  - exists r'. split; [exact Hread|exact Hr'].
Defined.

(** X2: at the end of the input (also after a seek past it) [readU8] and
    [readU16] fail with [EOF]; with a single byte left [readU16] fails with
    [ErrUnexpectedEOF]. *)
Theorem read_at_end_of_input (r : Bytes.Reader) :
  (reads r [] -> readU8 r = Err EOF /\ readU16 r = Err EOF)
  /\ (forall b, reads r [b] -> readU16 r = Err ErrUnexpectedEOF).
Proof.
  split.
  - intros Hr. unfold readU8, readU16.
    rewrite !(ReadFull_short r [] _ Hr) by (cbn; lia). split; reflexivity.
  - intros b Hr. unfold readU16.
    rewrite (ReadFull_short r [b] _ Hr) by (cbn; lia). reflexivity.
Qed.

Lemma read_at_end_of_input_witness :
  (World.readU8 (Bytes.mkReader [x01] 9) = Err EOF
   /\ World.readU16 (Bytes.mkReader [x01] 9) = Err EOF)
  /\ World.readU16 (Bytes.NewReader [x01]) = Err ErrUnexpectedEOF.
Proof.
  split.
  - destruct (read_at_end_of_input (Bytes.mkReader [x01] 9)) as [Hend _].
    apply Hend. split; [simpl; lia|reflexivity].
  - destruct (read_at_end_of_input (Bytes.NewReader [x01])) as [_ Hone].
    apply (Hone x01). apply reads_NewReader.
Defined.

(** X3: [readString] reads back a length-prefixed byte string: after the
    big-endian 16-bit length of [bs] and the bytes [bs] themselves it
    returns [bs] as a string and leaves the reader on what follows; the
    empty string is read even when nothing follows the prefix. *)
Theorem readString_length_prefixed (r : Bytes.Reader) (bs post : list byte) :
  Z.of_nat (length bs) < 65536 ->
  reads r (Encode.u16 (Z.of_nat (length bs)) ++ bs ++ post) ->
  exists r',
    readString r = Ok (string_of_list_byte bs, r')
    /\ reads r' post
    /\ list_byte_of_string (string_of_list_byte bs) = bs.
Proof.
  intros Hlen Hr.
  assert (0 <= Z.of_nat (length bs) < 65536) as Hrange by lia.
  destruct (readU16_reads r _ _ Hrange Hr) as (r1 & Hlen16 & Hr1).
  destruct (ReadFull_reads r1 bs post Hr1) as (r2 & Hbuf & Hr2).
  exists r2. split; [|split; [exact Hr2|]].
  - unfold readString. bind_step Hlen16. rewrite Nat2Z.id. now bind_step Hbuf.
  - apply list_byte_of_string_of_list_byte.
Qed.

Lemma readString_length_prefixed_witness :
  exists r',
    World.readString (Bytes.NewReader [x00; x03; x61; x69; x72; xff])
    = Ok ("air"%string, r')
    /\ reads r' [xff].
Proof.
  destruct (readString_length_prefixed
              (Bytes.NewReader [x00; x03; x61; x69; x72; xff])
              [x61; x69; x72] [xff]) as (r' & Hread & Hr' & _).
  - simpl. lia.
  - apply reads_NewReader.
  - exists r'. split; [exact Hread|exact Hr'].
Defined.

(** X4: a name whose length prefix promises more bytes than are left is an
    error: [EOF] when nothing follows the prefix, [ErrUnexpectedEOF] when
    some but too few bytes follow. *)
Theorem readString_truncated (r : Bytes.Reader) (n : Z) (rest : list byte) :
  0 <= n < 65536 ->
  Z.of_nat (length rest) < n ->
  reads r (Encode.u16 n ++ rest) ->
  readString r = Err (short_read_error rest).
Proof.
  intros Hn Hshort Hr.
  destruct (readU16_reads r n rest Hn Hr) as (r1 & Hlen16 & Hr1).
  unfold readString. bind_step Hlen16.
  rewrite (ReadFull_short r1 rest _ Hr1) by lia. reflexivity.
Qed.

Lemma readString_truncated_witness :
  World.readString (Bytes.NewReader [x00; x03; x61; x69]) = Err ErrUnexpectedEOF
  /\ World.readString (Bytes.NewReader [x00; x03]) = Err EOF.
Proof.
  split.
  - apply (readString_truncated (Bytes.NewReader [x00; x03; x61; x69]) 3
             [x61; x69]); [lia|simpl; lia|apply reads_NewReader].
  - apply (readString_truncated (Bytes.NewReader [x00; x03]) 3 []);
      [lia|simpl; lia|apply reads_NewReader].
Defined.

End FieldReaders.

(** ** Decoding, end to end *)

Section DecodeMore.
Import GoInt World.
Context `{ZstdDecoder}.

Lemma assign_all_absent (entries : list (Z * string)) :
  forall (m : gmap Z string) (id : Z),
    id ∉ map fst entries -> assign_all m entries !! id = m !! id.
Proof.
  unfold assign_all.
  induction entries as [|[k v] entries IH]; intros m id Hnot; [reflexivity|].
  cbn [map fst] in Hnot. apply not_elem_of_cons in Hnot as [Hne Hnot].
  cbn [fold_left fst snd]. rewrite IH by exact Hnot.
  apply lookup_insert_ne. congruence.
Qed.

(** Up to the node array: a stream whose header and table are well formed
    is decoded into its table and whatever the last read makes of the
    bytes that follow. *)
Lemma DecodeMapBlock_prefix (body meta widths tail : list byte)
    (entries : list (Z * string)) :
  length meta = 8%nat ->
  length widths = 2%nat ->
  Z.of_nat (length entries) < 65536 ->
  Forall Encode.fits entries ->
  zstd_read_all body
  = Ok (meta ++ Encode.u16 (Z.of_nat (length entries))
             ++ flat_map Encode.entry entries ++ widths ++ tail) ->
  exists r,
    reads r tail
    /\ DecodeMapBlock (x1d :: body)
       = ('(nodeData, _) ←
            Bytes.ReadFull r (Z.to_nat (MapBlockVolume * NodeSizeInBytes));
          Ok (mkMapBlock (assign_all ∅ entries) nodeData)).
Proof.
  intros Hmeta Hwidths Hcount Hfit Hzstd. unfold DecodeMapBlock.
  destruct (readU8_first x1d body) as (r0 & Hread0 & [_ Hr0]).
  bind_step Hread0. change (u8 x1d =? 29) with true. cbn [negb].
  rewrite Hr0. bind_step Hzstd.
  match goal with
  | |- context [Bytes.NewReader ?l] => pose proof (reads_NewReader l) as Hr
  end.
  destruct (Seek_reads _ _ _ Hr) as (r1 & Hseek1 & Hr1).
  rewrite Hmeta in Hseek1. change (1 + 2 + 4 + 1) with (Z.of_nat 8).
  bind_step Hseek1.
  assert (0 <= Z.of_nat (length entries) < 65536) as Hcount' by lia.
  destruct (readU16_reads r1 _ _ Hcount' Hr1) as (r2 & Hcnt & Hr2).
  bind_step Hcnt. rewrite Nat2Z.id.
  destruct (readMappings_reads entries r2 ∅ _ Hfit Hr2) as (r3 & Hmap & Hr3).
  bind_step Hmap.
  destruct (Seek_reads _ _ _ Hr3) as (r4 & Hseek2 & Hr4).
  rewrite Hwidths in Hseek2. change (1 + 1) with (Z.of_nat 2).
  bind_step Hseek2.
  exists r4. split; [exact Hr4|reflexivity].
Qed.

Lemma readU8_NewReader_inv (data : list byte) (version : byte) (r : Bytes.Reader) :
  readU8 (Bytes.NewReader data) = Ok (version, r) ->
  exists body, data = version :: body /\ Bytes.remaining r = body.
Proof.
  destruct data as [|b body].
  - intros Hread. unfold readU8 in Hread.
    rewrite (ReadFull_short _ [] 1 (reads_NewReader [])) in Hread by (cbn; lia).
    discriminate.
  - destruct (readU8_first b body) as (r0 & Hread0 & [_ Hr0]).
    rewrite Hread0. intros [= <- <-]. exists body. split; [reflexivity|exact Hr0].
Qed.

End DecodeMore.

(** ** Node arrays written from IDs *)

Section EncodedNodes.
Import GoInt World.

Lemma length_flat_map_u16 (ids : list Z) :
  length (flat_map Encode.u16 ids) = (2 * length ids)%nat.
Proof.
  induction ids as [|id ids IH]; [reflexivity|].
  cbn [flat_map Encode.u16 app length]. rewrite IH. lia.
Qed.

Lemma lookup_flat_map_u16 (ids : list Z) :
  forall (i : nat) (id : Z) (rest : list byte),
    ids !! i = Some id ->
    (flat_map Encode.u16 ids ++ rest) !! (2 * i)%nat
    = Some (Encode.byte_of_Z (id / 256))
    /\ (flat_map Encode.u16 ids ++ rest) !! (2 * i + 1)%nat
       = Some (Encode.byte_of_Z (id mod 256)).
Proof.
  induction ids as [|id0 ids IH]; intros i id rest Hi; [discriminate|].
  destruct i as [|i].
  - injection Hi as ->. split; reflexivity.
  - replace (2 * S i)%nat with (S (S (2 * i))) by lia.
    cbn [flat_map Encode.u16 app Nat.add].
    exact (IH i id rest Hi).
Qed.

(** The two bytes written for a 16-bit ID are joined back into it. *)
Lemma id_of_bytes (id : Z) :
  is_u16 id ->
  Z.lor (Z.shiftl (u8 (Encode.byte_of_Z (id / 256))) 8)
        (u8 (Encode.byte_of_Z (id mod 256))) = id.
Proof.
  intros Hid. rewrite Z.lor_comm.
  pose proof (be_u16_encode id Hid) as Hbe. unfold be_u16 in Hbe.
  now rewrite shift_byte_no_wrap in Hbe.
Qed.

Lemma GetNode_encode_nodes (m : gmap Z string) (ids : list Z)
    (p1P p2P : list byte) (x y z id : Z) (p1 p2 : byte) :
  length ids = Z.to_nat MapBlockVolume ->
  length p1P = Z.to_nat MapBlockVolume ->
  is_u16 id ->
  in_block x y z ->
  ids !! Z.to_nat (linear_index x y z) = Some id ->
  p1P !! Z.to_nat (linear_index x y z) = Some p1 ->
  p2P !! Z.to_nat (linear_index x y z) = Some p2 ->
  GetNode (mkMapBlock m (encode_nodes ids p1P p2P)) x y z = Ok (mkNode id p1 p2).
Proof.
  intros Hids Hp1P Hu16 Hin Hid Hp1 Hp2.
  destruct (node_index_in_block x y z Hin) as [Hidx Hrange].
  rewrite Hidx in Hrange.
  unfold linear_index in Hid, Hp1, Hp2.
  unfold MapBlockVolume, MapBlockSize in Hrange, Hids, Hp1P.
  change (16 ^ 2) with 256 in Hrange.
  set (k := z * 256 + y * 16 + x) in *.
  destruct (lookup_flat_map_u16 ids (Z.to_nat k) id (p1P ++ p2P) Hid)
    as [Hhi Hlo].
  pose proof (length_flat_map_u16 ids) as Hlen.
  rewrite <- (id_of_bytes id Hu16) at 1.
  apply GetNode_reads; [exact Hin|..];
    unfold MapBlockVolume, MapBlockSize; change (16 ^ 2) with 256; fold k;
    cbn [nodeData]; unfold encode_nodes.
  - replace (Z.to_nat (2 * k)) with (2 * Z.to_nat k)%nat by lia. exact Hhi.
  - replace (Z.to_nat (2 * k + 1)) with (2 * Z.to_nat k + 1)%nat by lia.
    exact Hlo.
  - rewrite lookup_app_r by (rewrite Hlen, Hids; lia).
    rewrite lookup_app_l by (rewrite Hp1P, Hlen, Hids; lia).
    rewrite <- Hp1. f_equal. rewrite Hlen, Hids. lia.
  - rewrite lookup_app_r by (rewrite Hlen, Hids; lia).
    rewrite lookup_app_r by (rewrite Hlen, Hids, Hp1P; lia).
    rewrite <- Hp2. f_equal. rewrite Hlen, Hids, Hp1P. lia.
Qed.

End EncodedNodes.

(** ** What [DecodeMapBlock] accepts and returns *)

Section DecodeContract.
Import GoInt World.
Context `{ZstdDecoder}.

(** X5: decoding reads back what was written: for a stream with the
    version byte 29 whose payload holds a mapping table and the node array
    of 4096 IDs and two parameter planes, the decoded block resolves every
    ID to the last name the table gives it, resolves an ID the table does
    not list to the empty string, and returns for every voxel the ID and
    the two parameters written for it. *)
Theorem DecodeMapBlock_round_trip (body meta widths trailing : list byte)
    (entries : list (Z * string)) (ids : list Z) (p1P p2P : list byte) :
  length meta = 8%nat ->
  length widths = 2%nat ->
  length ids = Z.to_nat MapBlockVolume ->
  length p1P = Z.to_nat MapBlockVolume ->
  length p2P = Z.to_nat MapBlockVolume ->
  Forall is_u16 ids ->
  Z.of_nat (length entries) < 65536 ->
  Forall Encode.fits entries ->
  zstd_read_all body
  = Ok (Encode.payload meta entries widths (encode_nodes ids p1P p2P)
        ++ trailing) ->
  exists block,
    DecodeMapBlock (x1d :: body) = Ok block
    /\ (forall pre post id name,
          entries = pre ++ (id, name) :: post -> id ∉ map fst post ->
          ResolveName block id = name)
    /\ (forall id, id ∉ map fst entries -> ResolveName block id = EmptyString)
    /\ (forall x y z id p1 p2,
          in_block x y z ->
          ids !! Z.to_nat (linear_index x y z) = Some id ->
          p1P !! Z.to_nat (linear_index x y z) = Some p1 ->
          p2P !! Z.to_nat (linear_index x y z) = Some p2 ->
          GetNode block x y z = Ok (mkNode id p1 p2)).
Proof.
  intros Hmeta Hwidths Hids Hp1P Hp2P Hu16 Hcount Hfit Hzstd.
  exists (mkMapBlock (assign_all ∅ entries) (encode_nodes ids p1P p2P)).
  split; [|split; [|split]].
  - apply (DecodeMapBlock_payload body meta widths _ trailing entries);
      try assumption.
    unfold encode_nodes. rewrite !length_app, length_flat_map_u16.
    rewrite Hids, Hp1P, Hp2P. vm_compute. reflexivity.
  - intros pre post id name -> Hlast. unfold ResolveName. cbn [mappings].
    now rewrite assign_all_last.
  - intros id Hnot. unfold ResolveName. cbn [mappings].
    now rewrite assign_all_absent, lookup_empty.
  - intros x y z id p1 p2 Hin Hid Hp1 Hp2.
    apply GetNode_encode_nodes; try assumption.
    rewrite Forall_lookup in Hu16. exact (Hu16 _ _ Hid).
Qed.

(** X6: the eight header bytes, the two width bytes and whatever follows
    the node array play no part: two well-formed streams with the same
    table and the same node array decode to the same block. *)
Theorem DecodeMapBlock_ignores_header_and_trailer
    (body1 body2 meta1 meta2 widths1 widths2 trailing1 trailing2 nodes : list byte)
    (entries : list (Z * string)) :
  length meta1 = 8%nat -> length meta2 = 8%nat ->
  length widths1 = 2%nat -> length widths2 = 2%nat ->
  length nodes = Z.to_nat (MapBlockVolume * NodeSizeInBytes) ->
  Z.of_nat (length entries) < 65536 ->
  Forall Encode.fits entries ->
  zstd_read_all body1
  = Ok (Encode.payload meta1 entries widths1 nodes ++ trailing1) ->
  zstd_read_all body2
  = Ok (Encode.payload meta2 entries widths2 nodes ++ trailing2) ->
  DecodeMapBlock (x1d :: body1) = DecodeMapBlock (x1d :: body2)
  /\ exists block,
       DecodeMapBlock (x1d :: body1) = Ok block /\ nodeData block = nodes.
Proof.
  intros Hm1 Hm2 Hw1 Hw2 Hnodes Hcount Hfit Hz1 Hz2.
  rewrite (DecodeMapBlock_payload body1 meta1 widths1 nodes trailing1 entries)
    by assumption.
  rewrite (DecodeMapBlock_payload body2 meta2 widths2 nodes trailing2 entries)
    by assumption.
  split; [reflexivity|]. eexists. split; reflexivity.
Qed.

(** X7: a block is returned only for an input that starts with the byte
    29, whose remainder the decompressor accepts, and whose payload has at
    least the 12 bytes of header, count and widths and the 16384 bytes of
    the node array. *)
Theorem DecodeMapBlock_accepts_only (data : list byte) (block : MapBlock) :
  DecodeMapBlock data = Ok block ->
  exists body payload,
    data = x1d :: body
    /\ zstd_read_all body = Ok payload
    /\ 16396 <= Z.of_nat (length payload).
Proof.
  unfold DecodeMapBlock. intros Hdec.
  apply bind_Ok_inv in Hdec as ([version r0] & Hver & Hdec).
  destruct (readU8_NewReader_inv data version r0 Hver) as (body & -> & Hbody).
  destruct (Z.eqb_spec (u8 version) 29) as [H29|]; [|discriminate].
  apply u8_version_29 in H29 as ->. cbn [negb] in Hdec.
  rewrite Hbody in Hdec.
  apply bind_Ok_inv in Hdec as (payload & Hzstd & Hdec).
  exists body, payload. split; [reflexivity|]. split; [exact Hzstd|].
  apply bind_Ok_inv in Hdec as (r1 & Hseek1 & Hdec).
  apply bind_Ok_inv in Hdec as ([count r2] & Hcount & Hdec).
  apply bind_Ok_inv in Hdec as ([table r3] & Htable & Hdec).
  apply bind_Ok_inv in Hdec as (r4 & Hseek2 & Hdec).
  apply bind_Ok_inv in Hdec as ([nodes r5] & Hnodes & _).
  apply Seek_position in Hseek1 as [Hs1 Hi1]. cbn [Bytes.NewReader Bytes.s Bytes.i] in *.
  apply readU16_position in Hcount as [Hs2 Hi2]; [|lia].
  apply readMappings_position in Htable as [Hs3 Hi3]; [|lia].
  apply Seek_position in Hseek2 as [Hs4 Hi4].
  apply ReadFull_position in Hnodes as (_ & _ & Hin); [|lia].
  assert (Bytes.s r4 = payload) as Hs by congruence. rewrite Hs in Hin.
  assert (Z.to_nat (MapBlockVolume * NodeSizeInBytes) <> 0%nat) as Hpos
    by (vm_compute; discriminate).
  specialize (Hin Hpos).
  change (Z.of_nat (Z.to_nat (MapBlockVolume * NodeSizeInBytes))) with 16384 in Hin.
  lia.
Qed.

(** X8: the empty input is refused with [EOF], and an error of the
    decompressor is returned as it is. *)
Theorem DecodeMapBlock_input_errors :
  DecodeMapBlock [] = Err EOF
  /\ forall body e,
       zstd_read_all body = Err e -> DecodeMapBlock (x1d :: body) = Err e.
Proof.
  split.
  - unfold DecodeMapBlock, readU8.
    rewrite (ReadFull_short _ [] 1 (reads_NewReader [])) by (cbn; lia).
    reflexivity.
  - intros body e Hzstd. unfold DecodeMapBlock.
    destruct (readU8_first x1d body) as (r0 & Hread0 & [_ Hr0]).
    bind_step Hread0. change (u8 x1d =? 29) with true. cbn [negb].
    rewrite Hr0, Hzstd. reflexivity.
Qed.

(** X9: a stream that is well formed up to the node array and then holds
    fewer than 16384 bytes is refused: with [EOF] when no byte follows the
    widths, with [ErrUnexpectedEOF] otherwise. *)
Theorem DecodeMapBlock_truncated_nodes (body meta widths nodes : list byte)
    (entries : list (Z * string)) :
  length meta = 8%nat ->
  length widths = 2%nat ->
  Z.of_nat (length nodes) < MapBlockVolume * NodeSizeInBytes ->
  Z.of_nat (length entries) < 65536 ->
  Forall Encode.fits entries ->
  zstd_read_all body = Ok (Encode.payload meta entries widths nodes) ->
  DecodeMapBlock (x1d :: body) = Err (short_read_error nodes).
Proof.
  intros Hmeta Hwidths Hshort Hcount Hfit Hzstd.
  destruct (DecodeMapBlock_prefix body meta widths nodes entries)
    as (r & Hr & Hdec); try assumption.
  rewrite Hdec, (ReadFull_short r nodes _ Hr) by lia. reflexivity.
Qed.

End DecodeContract.

Lemma DecodeMapBlock_round_trip_witness :
  let nodes := encode_nodes (replicate (Z.to_nat 4096) 5)
                 (replicate (Z.to_nat 4096) x0f) (replicate (Z.to_nat 4096) x01) in
  let body := Encode.payload (replicate 8 x00) [(5, "default:stone"%string)]
                [x02; x02] nodes ++ [xff] in
  exists block,
    World.DecodeMapBlock (H := stored_decoder) (x1d :: body) = Ok block
    /\ World.ResolveName block 5 = "default:stone"%string
    /\ World.ResolveName block 6 = EmptyString
    /\ World.GetNode block 3 2 1 = Ok (World.mkNode 5 x0f x01).
Proof.
  intros nodes body.
  destruct (DecodeMapBlock_round_trip (H := stored_decoder) body
              (replicate 8 x00) [x02; x02] [xff] [(5, "default:stone"%string)]
              (replicate (Z.to_nat 4096) 5) (replicate (Z.to_nat 4096) x0f)
              (replicate (Z.to_nat 4096) x01))
    as (block & Hdec & Hlast & Habsent & Hnode).
  - reflexivity.
  - reflexivity.
  - vm_compute. reflexivity.
  - vm_compute. reflexivity.
  - vm_compute. reflexivity.
  - apply Forall_replicate. unfold is_u16. lia.
  - simpl. lia.
  - repeat constructor; vm_compute; congruence.
  - reflexivity.
  - exists block. split; [exact Hdec|]. split; [|split].
    + apply (Hlast [] [] 5 "default:stone"%string); [reflexivity|].
      apply not_elem_of_nil.
    + apply Habsent. cbn [map fst].
      apply not_elem_of_cons. split; [lia|apply not_elem_of_nil].
    + apply (Hnode 3 2 1 5 x0f x01).
      * unfold in_block, World.MapBlockSize. lia.
      * vm_compute. reflexivity.
      * vm_compute. reflexivity.
      * vm_compute. reflexivity.
Defined.

Lemma DecodeMapBlock_ignores_header_and_trailer_witness :
  let nodes := replicate (Z.to_nat 16384) x00 in
  let body1 := Encode.payload (replicate 8 x00) [] [x02; x02] nodes in
  let body2 := Encode.payload (replicate 8 xff) [] [x01; x07] nodes ++ [xaa; xbb] in
  World.DecodeMapBlock (H := stored_decoder) (x1d :: body1)
  = World.DecodeMapBlock (H := stored_decoder) (x1d :: body2)
  /\ exists block,
       World.DecodeMapBlock (H := stored_decoder) (x1d :: body1) = Ok block
       /\ World.nodeData block = nodes.
Proof.
  intros nodes body1 body2.
  apply (DecodeMapBlock_ignores_header_and_trailer (H := stored_decoder)
           body1 body2 (replicate 8 x00) (replicate 8 xff) [x02; x02] [x01; x07]
           [] [xaa; xbb] nodes []).
  - reflexivity.
  - reflexivity.
  - reflexivity.
  - reflexivity.
  - vm_compute. reflexivity.
  - simpl. lia.
  - constructor.
  - unfold stored_decoder, zstd_read_all. now rewrite app_nil_r.
  - reflexivity.
Defined.

Lemma DecodeMapBlock_accepts_only_witness :
  exists body payload,
    stone_data = x1d :: body
    /\ zstd_read_all (ZstdDecoder := stored_decoder) body = Ok payload
    /\ 16396 <= Z.of_nat (length payload).
Proof.
  apply (DecodeMapBlock_accepts_only (H := stored_decoder) stone_data stone_block).
  vm_compute. reflexivity.
Defined.

Lemma DecodeMapBlock_input_errors_witness :
  World.DecodeMapBlock (H := refusing_decoder) [] = Err EOF
  /\ World.DecodeMapBlock (H := refusing_decoder) [x1d; x28; xb5] = Err (ErrZstd 1).
Proof.
  destruct (DecodeMapBlock_input_errors (H := refusing_decoder)) as [Hempty Hzstd].
  split; [exact Hempty|]. apply Hzstd. reflexivity.
Defined.

Lemma DecodeMapBlock_truncated_nodes_witness :
  World.DecodeMapBlock (H := stored_decoder)
    (x1d :: Encode.payload (replicate 8 x00) [] [x02; x02] [x00; x05])
  = Err ErrUnexpectedEOF
  /\ World.DecodeMapBlock (H := stored_decoder)
       (x1d :: Encode.payload (replicate 8 x00) [] [x02; x02] [])
     = Err EOF.
Proof.
  split.
  - apply (DecodeMapBlock_truncated_nodes (H := stored_decoder) _
             (replicate 8 x00) [x02; x02] [x00; x05] []);
      [reflexivity|reflexivity|vm_compute; reflexivity|simpl; lia
      |constructor|reflexivity].
  - apply (DecodeMapBlock_truncated_nodes (H := stored_decoder) _
             (replicate 8 x00) [x02; x02] [] []);
      [reflexivity|reflexivity|vm_compute; reflexivity|simpl; lia
      |constructor|reflexivity].
Defined.

(** * Further properties of the block queries *)

Section BlockBounds.
Import GoInt World.


Lemma node_index_moderate (x y z : Z) :
  moderate x -> moderate y -> moderate z ->
  node_index x y z = linear_index x y z.
Proof.
  unfold moderate, node_index, linear_index, MapBlockSize.
  intros Hx Hy Hz. int_small. lia.
Qed.

(** X10: [MapBlock.GetNode] checks no coordinate by itself; the voxel it
    reads depends on [z*256 + y*16 + x] alone, so coordinates with the same
    flat index give the same result, in or out of the block. *)
Theorem GetNode_same_flat_index (b : MapBlock) (x y z x' y' z' : Z) :
  moderate x -> moderate y -> moderate z ->
  moderate x' -> moderate y' -> moderate z' ->
  linear_index x y z = linear_index x' y' z' ->
  GetNode b x y z = GetNode b x' y' z'.
Proof.
  intros Hx Hy Hz Hx' Hy' Hz' Hsame. unfold GetNode.
  rewrite !node_index_moderate by assumption. now rewrite Hsame.
Qed.

Lemma GetNode_same_flat_index_witness :
  World.GetNode stone_block (-1) 5 5 = World.GetNode stone_block 15 4 5
  /\ World.GetNode stone_block 16 0 0 = World.GetNode stone_block 0 1 0.
Proof.
  split.
  - apply (GetNode_same_flat_index stone_block (-1) 5 5 15 4 5);
      unfold moderate, linear_index; lia.
  - apply (GetNode_same_flat_index stone_block 16 0 0 0 1 0);
      unfold moderate, linear_index; lia.
Defined.



End BlockBounds.

(** * Further properties of the neighborhood *)

Section NeighborhoodCells.
Import GoInt Spatial Render.


(** A successful [SetBlock] replaces one cell of the array. *)
Lemma SetBlock_Ok_inv (b b' : BlockNeighborhood) (pos : BlockPos.t)
    (block : option World.MapBlock) :
  SetBlock b pos block = Ok b' ->
  exists cell : nat,
    (cell < length (blocks b))%nat
    /\ Z.of_nat cell
       = add (add (mul (BlockPos.X pos) 9) (mul (BlockPos.Y pos) 3)) (BlockPos.Z pos)
    /\ blocks b' = <[cell := block]> (blocks b).
Proof.
  unfold SetBlock, store_at.
  set (k := add (add (mul (BlockPos.X pos) 9) (mul (BlockPos.Y pos) 3))
              (BlockPos.Z pos)).
  destruct (Z.leb_spec 0 k) as [Hk0|]; [|discriminate].
  destruct (Z.ltb_spec k (Z.of_nat (length (blocks b)))) as [Hk1|]; [|discriminate].
  cbn [andb]. rewrite bind_Ok. intros [= <-].
  exists (Z.to_nat k). cbn [blocks]. repeat split; lia.
Qed.


Lemma index_at_insert_eq {A} (l : list A) (cell : nat) (v : A) :
  (cell < length l)%nat -> index_at (<[cell := v]> l) (Z.of_nat cell) = Ok v.
Proof.
  intros Hlt. apply index_at_lookup; [lia|].
  rewrite Nat2Z.id. now apply list_lookup_insert_eq.
Qed.

(** X12: [GetParam1] is the second component of [GetNode]: it returns the
    param1 of the answer [GetNode] gives, the same 0 for an absent block,
    and panics exactly where [GetNode] does. *)
Theorem GetParam1_of_GetNode (b : BlockNeighborhood) (pos : NodePos.t) :
  GetParam1 b pos = res_map param1_of (GetNode b pos).
Proof.
  unfold GetParam1, GetNode.
  destruct (getBlockByNodePos b pos) as [[block|]|p]; try reflexivity.
  rewrite !bind_Ok.
  destruct (MapBlock_GetNode block (local_pos pos)) as [node|p]; reflexivity.
Qed.





End NeighborhoodCells.

Section NeighborhoodQueries.
Import GoInt Spatial Render.

(** Truncating division and remainder of a non-negative coordinate. *)
Lemma div_rem_nonneg (a : Z) :
  0 <= a <= 2 ^ 41 ->
  div a BlockSize = a `div` 16 /\ rem a BlockSize = a `mod` 16.
Proof.
  intros Ha. unfold BlockSize, rem.
  rewrite Z.rem_mod_nonneg by lia. split; [|reflexivity].
  assert (0 <= a `div` 16 <= a) as Hq.
  { split; [apply Z.div_pos; lia|].
    apply Z.div_le_upper_bound; lia. }
  rewrite div_small; rewrite Z.quot_div_nonneg by lia; [reflexivity|].
  unfold in_int. lia.
Qed.

Lemma zero_invariants : wf zero /\ all_full zero.
Proof.
  split; [reflexivity|].
  intros cell block Hcell. exfalso. unfold zero in Hcell. cbn [blocks] in Hcell.
  apply lookup_replicate in Hcell as [Hcell _]. discriminate.
Qed.

(** X15: on the cells whose X and Z offsets are equal, the center among
    them, a stored block is the one the queries read: after [SetBlock] at
    the shifted position of such a non-negative offset [o], a node of the
    block at [o] is answered from the stored block, at the node's position
    relative to that block. *)
Theorem SetBlock_then_GetNode (b : BlockNeighborhood) (o : BlockPos.t)
    (block : World.MapBlock) (node : NodePos.t) :
  wf b ->
  0 <= BlockPos.X o <= 1 -> 0 <= BlockPos.Y o <= 1 ->
  BlockPos.Z o = BlockPos.X o ->
  let x := NodePos.X node - BlockSize * BlockPos.X o in
  let y := NodePos.Y node - BlockSize * BlockPos.Y o in
  let z := NodePos.Z node - BlockSize * BlockPos.Z o in
  in_block x y z ->
  exists b',
    SetBlock b (BlockPos.Add neighborhoodCenter o) (Some block) = Ok b'
    /\ getBlockByNodePos b' node = Ok (Some block)
    /\ GetNode b' node = res_map (node_answer block) (World.GetNode block x y z).
Proof.
  intros Hwf Hox Hoy Hoz x y z Hin.
  unfold in_block, World.MapBlockSize in Hin. destruct Hin as (Hx & Hy & Hz).
  destruct (SetBlock_shifted_offset b o (Some block) Hwf) as (b' & Hset & Hcell & _).
  { unfold offset_in_range. lia. }
  exists b'. split; [exact Hset|].
  assert (cell_of_node node = Z.of_nat (stored_cell o)) as Hnode.
  { rewrite (cell_of_node_transposed o node); unfold BlockSize in *; try lia.
    destruct o as [ox oy oz]. cbn [BlockPos.X BlockPos.Y BlockPos.Z] in *.
    now subst oz. }
  assert (getBlockByNodePos b' node = Ok (Some block)) as Hget.
  { unfold getBlockByNodePos. rewrite Hnode.
    apply index_at_lookup; [lia|]. now rewrite Nat2Z.id. }
  split; [exact Hget|].
  unfold GetNode. rewrite Hget, bind_Ok.
  assert (local_pos node = NodePos.mk x y z) as ->.
  { unfold local_pos, BlockSize in *. subst x y z.
    destruct node as [nx ny nz], o as [ox oy oz].
    cbn [BlockPos.X BlockPos.Y BlockPos.Z NodePos.X NodePos.Y NodePos.Z] in *.
    unfold rem. rewrite !Z.rem_mod_nonneg by lia.
    rewrite (Z.mod_unique nx 16 ox (nx - 16 * ox)) by lia.
    rewrite (Z.mod_unique ny 16 oy (ny - 16 * oy)) by lia.
    rewrite (Z.mod_unique nz 16 oz (nz - 16 * oz)) by lia.
    reflexivity. }
  unfold MapBlock_GetNode. cbn [NodePos.X NodePos.Y NodePos.Z].
  destruct (World.GetNode block x y z) as [n|p]; reflexivity.
Qed.

Lemma SetBlock_then_GetNode_witness :
  exists b',
    SetBlock zero (BlockPos.Add neighborhoodCenter (BlockPos.mk 0 1 0))
      (Some stone_block) = Ok b'
    /\ getBlockByNodePos b' (NodePos.mk 3 18 5) = Ok (Some stone_block)
    /\ GetNode b' (NodePos.mk 3 18 5)
       = res_map (node_answer stone_block) (World.GetNode stone_block 3 2 5).
Proof.
  apply (SetBlock_then_GetNode zero (BlockPos.mk 0 1 0) stone_block
           (NodePos.mk 3 18 5)).
  - reflexivity.
  - simpl. lia.
  - simpl. lia.
  - reflexivity.
  - unfold in_block, World.MapBlockSize, BlockSize. simpl. lia.
Defined.

End NeighborhoodQueries.

Section NeighborhoodSafety.
Import GoInt Spatial Render.
Context `{ZstdDecoder}.

(** X16: [FetchBlock] keeps the neighborhood well formed: whenever it
    returns, the array still has its 27 cells and every block in it has the
    whole 16384 bytes of node data, for it was returned by [DecodeMapBlock]. *)
Theorem FetchBlock_keeps_blocks_full (b b' : BlockNeighborhood) (w : World.World)
    (posOffset worldPos : BlockPos.t) :
  wf b -> all_full b ->
  FetchBlock b w posOffset worldPos = Ok b' ->
  wf b' /\ all_full b'.
Proof.
  intros Hwf Hfull. unfold FetchBlock, World_GetBlock, World.GetBlock.
  destruct (World.backend w _ _ _) as [data|e]; [|intros [= <-]; now split].
  rewrite bind_Ok.
  destruct (World.DecodeMapBlock data) as [block|e] eqn:Hdec;
    [|intros [= <-]; now split].
  rewrite bind_Ok. intros Hset.
  destruct (SetBlock_Ok_inv _ _ _ _ Hset) as (cell & Hlt & _ & Hblocks).
  split.
  - unfold wf in *. now rewrite Hblocks, length_insert.
  - intros c blk. rewrite Hblocks.
    destruct (decide (c = cell)) as [->|Hne].
    + rewrite list_lookup_insert_eq by exact Hlt. intros [= <-].
      exact (DecodeMapBlock_nodeData_length data block Hdec).
    + rewrite list_lookup_insert_ne by congruence. apply Hfull.
Qed.

End NeighborhoodSafety.

Lemma FetchBlock_keeps_blocks_full_witness :
  exists b',
    Render.FetchBlock (H := stored_decoder) Render.zero
      (single_block_world stone_data) (Spatial.BlockPos.mk 0 0 0)
      (Spatial.BlockPos.mk 0 0 0) = Ok b'
    /\ Render.wf b' /\ all_full b'.
Proof.
  exists (Render.mkBlockNeighborhood
            (<[13%nat := Some stone_block]> (Render.blocks Render.zero))).
  assert (Render.FetchBlock (H := stored_decoder) Render.zero
            (single_block_world stone_data) (Spatial.BlockPos.mk 0 0 0)
            (Spatial.BlockPos.mk 0 0 0)
          = Ok (Render.mkBlockNeighborhood
                  (<[13%nat := Some stone_block]> (Render.blocks Render.zero))))
    as Hfetch by (vm_compute; reflexivity).
  split; [exact Hfetch|].
  destruct zero_invariants as [Hwf Hfull].
  exact (FetchBlock_keeps_blocks_full (H := stored_decoder) _ _ _ _ _
           Hwf Hfull Hfetch).
Defined.

Section NeighborhoodTotality.
Import GoInt Spatial Render.

(** X17: in a neighborhood of 27 cells whose blocks have their whole node
    data, a query at a position with every coordinate in [[0, 32)] never
    panics: [GetNode] returns an answer and [GetParam1] its param1. *)
Theorem GetNode_answers_in_range (b : BlockNeighborhood) (node : NodePos.t) :
  wf b -> all_full b ->
  0 <= NodePos.X node < 32 -> 0 <= NodePos.Y node < 32 ->
  0 <= NodePos.Z node < 32 ->
  exists answer,
    GetNode b node = Ok answer /\ GetParam1 b node = Ok (param1_of answer).
Proof.
  intros Hwf Hfull Hx Hy Hz. destruct node as [x y z].
  cbn [NodePos.X NodePos.Y NodePos.Z] in *.
  set (o := BlockPos.mk (x `div` 16) (y `div` 16) (z `div` 16)).
  assert (forall a, 0 <= a < 32 ->
            0 <= a `div` 16 <= 1 /\ 0 <= a - 16 * (a `div` 16) < 16) as Hcell.
  { intros a Ha. pose proof (Z.div_mod a 16). pose proof (Z.mod_pos_bound a 16).
    assert (0 <= a `div` 16) by (apply Z.div_pos; lia).
    assert (a `div` 16 < 2) by (apply Z.div_lt_upper_bound; lia). lia. }
  destruct (Hcell x Hx) as [Hox Hlx], (Hcell y Hy) as [Hoy Hly],
    (Hcell z Hz) as [Hoz Hlz].
  pose proof (cell_of_node_transposed o (NodePos.mk x y z)) as Hnode.
  unfold BlockSize in Hnode. subst o.
  cbn [BlockPos.X BlockPos.Y BlockPos.Z NodePos.X NodePos.Y NodePos.Z] in Hnode.
  specialize (Hnode Hox Hoy Hoz Hlx Hly Hlz).
  set (cell := stored_cell _) in Hnode.
  assert (cell < 27)%nat as Hlt.
  { subst cell. unfold stored_cell.
    cbn [BlockPos.X BlockPos.Y BlockPos.Z]. lia. }
  destruct (lookup_lt_is_Some_2 (blocks b) cell) as [content Hcontent];
    [unfold wf in Hwf; lia|].
  assert (getBlockByNodePos b (NodePos.mk x y z) = Ok content) as Hget.
  { unfold getBlockByNodePos. rewrite Hnode.
    apply index_at_lookup; [lia|]. now rewrite Nat2Z.id. }
  unfold GetNode, GetParam1. rewrite Hget, !bind_Ok.
  destruct content as [block|]; [|eexists; split; reflexivity].
  assert (in_block (rem x BlockSize) (rem y BlockSize) (rem z BlockSize)) as Hin.
  { unfold in_block, World.MapBlockSize, rem, BlockSize.
    rewrite !Z.rem_mod_nonneg by lia.
    pose proof (Z.mod_pos_bound x 16). pose proof (Z.mod_pos_bound y 16).
    pose proof (Z.mod_pos_bound z 16). lia. }
  destruct (GetNode_full_block block _ _ _ (Hfull cell block Hcontent) Hin)
    as (hi & lo & p1 & p2 & _ & _ & _ & _ & Hnodeget).
  unfold MapBlock_GetNode, local_pos. cbn [NodePos.X NodePos.Y NodePos.Z].
  rewrite Hnodeget, !bind_Ok. eexists. split; reflexivity.
Qed.

Lemma GetNode_answers_in_range_witness :
  exists answer,
    GetNode stone_among_dirt (NodePos.mk 31 0 17) = Ok answer
    /\ GetParam1 stone_among_dirt (NodePos.mk 31 0 17) = Ok (param1_of answer).
Proof.
  apply (GetNode_answers_in_range stone_among_dirt (NodePos.mk 31 0 17)).
  - reflexivity.
  - intros cell block Hcell.
    assert (block = dirt_block \/ block = stone_block) as [-> | ->].
    { unfold stone_among_dirt in Hcell. cbn [blocks] in Hcell.
      apply list_elem_of_lookup_2 in Hcell.
      rewrite !elem_of_app in Hcell.
      destruct Hcell as [Hcell|[Hcell|Hcell]].
      - apply elem_of_replicate in Hcell as [[= <-] _]. now left.
      - apply list_elem_of_singleton in Hcell as [= <-]. now right.
      - apply elem_of_replicate in Hcell as [[= <-] _]. now left. }
    + vm_compute. reflexivity.
    + vm_compute. reflexivity.
  - simpl. lia.
  - simpl. lia.
  - simpl. lia.
Defined.

(** X18: [getBlockByNodePos] checks no axis by itself: the cell depends on
    [bz*9 + by*3 + bx] alone, so a position three blocks further along X is
    answered exactly like the position one block further along Y. *)
Theorem GetNode_beyond_x_reads_next_y (b : BlockNeighborhood) (x y z : Z) :
  0 <= x <= 2 ^ 40 -> 0 <= y <= 2 ^ 40 -> 0 <= z <= 2 ^ 40 ->
  cell_of_node (NodePos.mk (x + 48) y z) = cell_of_node (NodePos.mk x (y + 16) z)
  /\ GetNode b (NodePos.mk (x + 48) y z) = GetNode b (NodePos.mk x (y + 16) z).
Proof.
  intros Hx Hy Hz.
  destruct (div_rem_nonneg (x + 48)) as [Hdx' Hrx']; [lia|].
  destruct (div_rem_nonneg x) as [Hdx Hrx]; [lia|].
  destruct (div_rem_nonneg (y + 16)) as [Hdy' Hry']; [lia|].
  destruct (div_rem_nonneg y) as [Hdy Hry]; [lia|].
  destruct (div_rem_nonneg z) as [Hdz Hrz]; [lia|].
  assert ((x + 48) `div` 16 = x `div` 16 + 3) as Hq1.
  { replace (x + 48) with (x + 3 * 16) by lia. apply Z.div_add. lia. }
  assert ((y + 16) `div` 16 = y `div` 16 + 1) as Hq2.
  { replace (y + 16) with (y + 1 * 16) by lia. apply Z.div_add. lia. }
  assert ((x + 48) `mod` 16 = x `mod` 16) as Hm1.
  { replace (x + 48) with (x + 3 * 16) by lia. apply Z.mod_add. lia. }
  assert ((y + 16) `mod` 16 = y `mod` 16) as Hm2.
  { replace (y + 16) with (y + 1 * 16) by lia. apply Z.mod_add. lia. }
  assert (0 <= x `div` 16 <= x) as Hbx
    by (split; [apply Z.div_pos|apply Z.div_le_upper_bound]; lia).
  assert (0 <= y `div` 16 <= y) as Hby
    by (split; [apply Z.div_pos|apply Z.div_le_upper_bound]; lia).
  assert (0 <= z `div` 16 <= z) as Hbz
    by (split; [apply Z.div_pos|apply Z.div_le_upper_bound]; lia).
  assert (cell_of_node (NodePos.mk (x + 48) y z)
          = cell_of_node (NodePos.mk x (y + 16) z)) as Hcell.
  { unfold cell_of_node, neighborhoodCenter.
    cbn [BlockPos.X BlockPos.Y BlockPos.Z NodePos.X NodePos.Y NodePos.Z].
    rewrite Hdx', Hdx, Hdy', Hdy, Hdz, Hq1, Hq2. int_small. lia. }
  split; [exact Hcell|].
  unfold GetNode, getBlockByNodePos, local_pos. rewrite Hcell.
  cbn [NodePos.X NodePos.Y NodePos.Z].
  now rewrite Hrx', Hrx, Hry', Hry, Hm1, Hm2.
Qed.

Lemma GetNode_beyond_x_reads_next_y_witness :
  cell_of_node (NodePos.mk 50 3 3) = cell_of_node (NodePos.mk 2 19 3)
  /\ GetNode stone_among_dirt (NodePos.mk 50 3 3)
     = GetNode stone_among_dirt (NodePos.mk 2 19 3).
Proof.
  apply (GetNode_beyond_x_reads_next_y stone_among_dirt 2 3 3); lia.
Defined.

End NeighborhoodTotality.

(** * From the backend to a query *)

Section EndToEnd.
Import GoInt Spatial Render.
Context `{ZstdDecoder}.

(** X19: a block fetched for the center is what the queries of the center
    answer from.  When the backend holds, at the world position, a stream
    with the version byte 29 whose payload carries a mapping table and the
    node array of 4096 IDs and two parameter planes, [FetchBlock] with the
    offset [(0,0,0)] succeeds, and then for every node [(x,y,z)] of the
    center block [GetNode] returns the name the table gives last to the
    node's ID (the empty name when the table does not list it) with the
    node's two parameters, and [GetParam1] returns its param1. *)
Theorem FetchBlock_then_GetNode_center (b : BlockNeighborhood) (w : World.World)
    (worldPos : BlockPos.t) (body meta widths trailing : list byte)
    (entries : list (Z * string)) (ids : list Z) (p1P p2P : list byte) :
  wf b ->
  moderate (BlockPos.X worldPos) -> moderate (BlockPos.Y worldPos) ->
  moderate (BlockPos.Z worldPos) ->
  World.backend w (BlockPos.X worldPos) (BlockPos.Y worldPos) (BlockPos.Z worldPos)
  = Ok (x1d :: body) ->
  zstd_read_all body
  = Ok (Encode.payload meta entries widths (encode_nodes ids p1P p2P)
        ++ trailing) ->
  length meta = 8%nat ->
  length widths = 2%nat ->
  length ids = Z.to_nat World.MapBlockVolume ->
  length p1P = Z.to_nat World.MapBlockVolume ->
  length p2P = Z.to_nat World.MapBlockVolume ->
  Forall is_u16 ids ->
  Z.of_nat (length entries) < 65536 ->
  Forall Encode.fits entries ->
  exists b',
    FetchBlock b w (BlockPos.mk 0 0 0) worldPos = Ok b'
    /\ forall x y z id p1 p2,
         in_block x y z ->
         ids !! Z.to_nat (linear_index x y z) = Some id ->
         p1P !! Z.to_nat (linear_index x y z) = Some p1 ->
         p2P !! Z.to_nat (linear_index x y z) = Some p2 ->
         GetParam1 b' (NodePos.mk x y z) = Ok p1
         /\ (forall pre post name,
               entries = pre ++ (id, name) :: post -> id ∉ map fst post ->
               GetNode b' (NodePos.mk x y z) = Ok (name, p1, p2))
         /\ (id ∉ map fst entries ->
             GetNode b' (NodePos.mk x y z) = Ok (EmptyString, p1, p2)).
Proof.
  intros Hwf Hwx Hwy Hwz Hback Hzstd Hmeta Hwidths Hids Hp1P Hp2P Hu16 Hcount Hfit.
  set (block := World.mkMapBlock (assign_all ∅ entries) (encode_nodes ids p1P p2P)).
  assert (World.DecodeMapBlock (x1d :: body) = Ok block) as Hdec.
  { apply (DecodeMapBlock_payload body meta widths _ trailing entries);
      try assumption.
    unfold encode_nodes. rewrite !length_app, length_flat_map_u16.
    rewrite Hids, Hp1P, Hp2P. vm_compute. reflexivity. }
  destruct (SetBlock_shifted_offset b (BlockPos.mk 0 0 0) (Some block) Hwf)
    as (b' & Hset & Hcell & _).
  { unfold offset_in_range. simpl. lia. }
  exists b'. split.
  - unfold FetchBlock, World_GetBlock, World.GetBlock, BlockPos.Add.
    cbn [BlockPos.X BlockPos.Y BlockPos.Z].
    unfold moderate in *. int_small. rewrite !Z.add_0_r.
    rewrite Hback, bind_Ok, Hdec, bind_Ok. exact Hset.
  - intros x y z id p1 p2 Hin Hid Hp1 Hp2.
    pose proof Hin as (Hx & Hy & Hz). unfold World.MapBlockSize in Hx, Hy, Hz.
    destruct (cell_of_node_within_block x y z) as [Hcenter Hlocal]; try lia.
    assert (getBlockByNodePos b' (NodePos.mk x y z) = Ok (Some block)) as Hget.
    { unfold getBlockByNodePos. rewrite Hcenter.
      apply index_at_lookup; [lia|exact Hcell]. }
    assert (MapBlock_GetNode block (local_pos (NodePos.mk x y z))
            = Ok (World.mkNode id p1 p2)) as Hnode.
    { rewrite Hlocal. unfold MapBlock_GetNode, block.
      cbn [NodePos.X NodePos.Y NodePos.Z].
      apply GetNode_encode_nodes; try assumption.
      rewrite Forall_lookup in Hu16. exact (Hu16 _ _ Hid). }
    unfold GetParam1, GetNode. rewrite Hget, !bind_Ok, Hnode, !bind_Ok.
    cbn [World.ID World.Param1 World.Param2].
    split; [reflexivity|]. split.
    + intros pre post name -> Hlast. unfold World.ResolveName, block.
      cbn [World.mappings]. now rewrite assign_all_last.
    + intros Hnot. unfold World.ResolveName, block. cbn [World.mappings].
      now rewrite assign_all_absent, lookup_empty.
Qed.

End EndToEnd.

Lemma FetchBlock_then_GetNode_center_witness :
  exists b',
    Render.FetchBlock (H := stored_decoder) Render.zero
      (single_block_world stone_data) (Spatial.BlockPos.mk 0 0 0)
      (Spatial.BlockPos.mk 0 0 0) = Ok b'
    /\ Render.GetNode b' (Spatial.NodePos.mk 5 5 5)
       = Ok ("default:stone"%string, x0f, x0f)
    /\ Render.GetParam1 b' (Spatial.NodePos.mk 5 5 5) = Ok x0f.
Proof.
  destruct (FetchBlock_then_GetNode_center (H := stored_decoder) Render.zero
              (single_block_world stone_data) (Spatial.BlockPos.mk 0 0 0)
              (Encode.payload (replicate 8 x00) [(5, "default:stone"%string)]
                 [x02; x02] stone_nodes)
              (replicate 8 x00) [x02; x02] [] [(5, "default:stone"%string)]
              (replicate (Z.to_nat 4096) 5) (replicate (Z.to_nat 4096) x0f)
              (replicate (Z.to_nat 4096) x0f))
    as (b' & Hfetch & Hquery).
  - reflexivity.
  - unfold moderate. simpl. lia.
  - unfold moderate. simpl. lia.
  - unfold moderate. simpl. lia.
  - reflexivity.
  - vm_compute. reflexivity.
  - reflexivity.
  - reflexivity.
  - vm_compute. reflexivity.
  - vm_compute. reflexivity.
  - vm_compute. reflexivity.
  - apply Forall_replicate. unfold is_u16. lia.
  - simpl. lia.
  - repeat constructor; vm_compute; congruence.
  - exists b'. split; [exact Hfetch|].
    destruct (Hquery 5 5 5 5 x0f x0f) as (Hparam & Hname & _).
    + unfold in_block, World.MapBlockSize. lia.
    + vm_compute. reflexivity.
    + vm_compute. reflexivity.
    + vm_compute. reflexivity.
    + split; [|exact Hparam].
      apply (Hname [] [] "default:stone"%string); [reflexivity|].
      apply not_elem_of_nil.
Defined.

(** * The media cache *)

Section MediaCache.
Import Media.
Context {Mesh : Type}.
Context (readPNG : string -> option NRGBA).
Context (loadOBJ : string -> res error Mesh).
Context (Base Ext : string -> string).

#[local] Abbreviation fetch := (fetchMedia readPNG loadOBJ Base Ext).

(** A walk in two parts: the second part runs from the cache the first
    part leaves, unless the first part stopped. *)
Lemma fetchMedia_app (before after : list visit) :
  forall m : MediaCache (Mesh := Mesh),
    fetch m (before ++ after)
    = match fetch m before with
      | (m1, None) => fetch m1 after
      | (m1, Some s) => (m1, Some s)
      end.
Proof.
  induction before as [|[path d] before IH]; intros m.
  - destruct (fetch m after) as [m1 [s|]]; reflexivity.
  - cbn [app fetchMedia]. destruct d as [regular|]; [|reflexivity].
    destruct (negb regular); [apply IH|].
    destruct (String.eqb (Ext path) ".png"); [apply IH|].
    destruct (String.eqb (Ext path) ".obj"); [|apply IH].
    destruct (loadOBJ path) as [mesh|e]; [apply IH|reflexivity].
Qed.

(** X20: after a walk that ran to its end, [Image] returns for a name the
    image pointer [readPNG] gave for the last regular ".png" file visited
    with that base name, a [nil] pointer included (the read error is
    dropped); for a name no such file has, it returns what it returned
    before the walk.  Directories, other extensions and meshes leave the
    images as they are. *)
Theorem fetchMedia_then_Image (visits : list visit) :
  forall (m m' : MediaCache (Mesh := Mesh)) (name : string),
    fetch m visits = (m', None) ->
    Image m' name
    = match last_png Base Ext visits name with
      | Some path => readPNG path
      | None => Image m name
      end.
Proof.
  induction visits as [|[path d] visits IH]; intros m m' name Hwalk.
  - injection Hwalk as <-. reflexivity.
  - cbn [fetchMedia] in Hwalk. cbn [last_png].
    destruct d as [regular|]; [|discriminate].
    destruct regular; cbn [negb] in Hwalk.
    + destruct (String.eqb (Ext path) ".png") eqn:Hpng.
      * rewrite (IH _ _ name Hwalk).
        destruct (last_png Base Ext visits name); [reflexivity|].
        cbn [andb]. unfold Image at 1. cbn [images dummyImage].
        destruct (String.eqb_spec (Base path) name) as [->|Hne].
        -- now rewrite lookup_insert_eq.
        -- now rewrite lookup_insert_ne.
      * cbn [andb].
        destruct (String.eqb (Ext path) ".obj").
        -- destruct (loadOBJ path) as [mesh|e]; [|discriminate].
           rewrite (IH _ _ name Hwalk).
           destruct (last_png Base Ext visits name); reflexivity.
        -- rewrite (IH _ _ name Hwalk).
           destruct (last_png Base Ext visits name); reflexivity.
    + rewrite (IH _ _ name Hwalk).
      destruct (last_png Base Ext visits name); reflexivity.
Qed.

(** X21: a mesh that fails to load stops the walk: [fetchMedia] returns the
    error of [loadOBJ], the cache holds what the files before the mesh
    put there, and no file after it is loaded. *)
Theorem fetchMedia_stops_at_failed_mesh (before after : list visit)
    (m m1 : MediaCache (Mesh := Mesh)) (path : string) (e : error) :
  fetch m before = (m1, None) ->
  Ext path = ".obj"%string ->
  loadOBJ path = Err e ->
  fetch m (before ++ (path, Some true) :: after) = (m1, Some (Failed e)).
Proof.
  intros Hbefore Hext Hload.
  rewrite fetchMedia_app, Hbefore. cbn [fetchMedia negb].
  rewrite Hext, Hload. reflexivity.
Qed.

End MediaCache.

Lemma fetchMedia_then_Image_witness :
  let visits :=
    [("media"%string, Some false);
     ("media/broken/stone.png"%string, Some true);
     ("media/readme.txt"%string, Some true);
     ("media/textures"%string, Some false);
     ("media/textures/stone.png"%string, Some true);
     ("media/textures/water.png"%string, Some true)] in
  let m := Media.mkMediaCache (Mesh := unit) ∅ ∅ (Some Media.blank_2x2) in
  exists m',
    Media.fetchMedia one_texture no_mesh path_base path_ext m visits = (m', None)
    /\ Media.Image m' "stone.png" = Some Media.blank_2x2
    /\ Media.Image m' "water.png" = None
    /\ Media.Image m' "readme.txt" = Media.Image m "readme.txt".
Proof.
  intros visits m.
  destruct (Media.fetchMedia one_texture no_mesh path_base path_ext m visits)
    as [m' outcome] eqn:Hwalk.
  assert (outcome = None) as ->.
  { vm_compute in Hwalk. now injection Hwalk as _ <-. }
  exists m'. split; [reflexivity|].
  pose proof (fetchMedia_then_Image one_texture no_mesh path_base path_ext
                visits m m') as Himage.
  split; [|split].
  - rewrite (Himage "stone.png"%string Hwalk). reflexivity.
  - rewrite (Himage "water.png"%string Hwalk). reflexivity.
  - rewrite (Himage "readme.txt"%string Hwalk). reflexivity.
Defined.

Lemma fetchMedia_stops_at_failed_mesh_witness :
  let m := Media.mkMediaCache (Mesh := unit) ∅ ∅ (Some Media.blank_2x2) in
  exists m1,
    Media.fetchMedia one_texture no_mesh path_base path_ext m
      [("media/textures/stone.png"%string, Some true);
       ("media/models/chest.obj"%string, Some true);
       ("media/textures/water.png"%string, Some true)]
    = (m1, Some (Media.Failed (ErrBackend 2)))
    /\ Media.images m1 !! "stone.png"%string = Some (Some Media.blank_2x2)
    /\ Media.images m1 !! "water.png"%string = None.
Proof.
  intros m.
  exists (Media.mkMediaCache
            (<["stone.png"%string := Some Media.blank_2x2]> ∅) ∅
            (Some Media.blank_2x2)).
  split; [|split; reflexivity].
  apply (fetchMedia_stops_at_failed_mesh one_texture no_mesh path_base path_ext
           [("media/textures/stone.png"%string, Some true)]
           [("media/textures/water.png"%string, Some true)] m).
  - reflexivity.
  - reflexivity.
  - reflexivity.
Defined.

Section Placeholder.
Import Media.
Context {Mesh : Type}.

(** X22: [NewMediaCache] does not panic, and in the cache it returns
    [Image] answers every name with the same 2x2 placeholder, whose pixel
    [(x, y)] is opaque magenta where [x = y] and opaque black elsewhere. *)
Theorem NewMediaCache_placeholder :
  exists (m : MediaCache (Mesh := Mesh)) (dummy : NRGBA),
    NewMediaCache = Ok m
    /\ (forall name, Image m name = Some dummy)
    /\ (forall x y, 0 <= x < 2 -> 0 <= y < 2 ->
          NRGBAAt dummy x y = Ok (if x =? y then magenta else black)).
Proof.
  exists (mkMediaCache ∅ ∅
            (Some (mkNRGBA [xff; x00; xff; xff; x00; x00; x00; xff;
                            x00; x00; x00; xff; xff; x00; xff; xff] 8 0 0 2 2))).
  eexists. split; [reflexivity|]. split.
  - intros name. unfold Image. cbn [images dummyImage].
    rewrite lookup_empty. reflexivity.
  - intros x y Hx Hy.
    assert (x = 0 \/ x = 1) as [-> | ->] by lia;
      assert (y = 0 \/ y = 1) as [-> | ->] by lia;
      vm_compute; reflexivity.
Qed.

End Placeholder.
